(** * Earthquake template generator (src/App.js): a shallow embedding

    The program is one React component.  Its logic is
    - [fillTemplate]: five chained [String.prototype.replace] calls,
    - the body of [fetchEarthquakes]: filter by prefecture, sort by time,
      pick the first record,
    - the second effect: format the selected record and fill the template,
    - the event handlers that wire the state hooks together.

    Strings are [String.string] holding the UTF-8 bytes of the JavaScript
    text.  Every pattern the program searches for is ASCII, and an ASCII byte
    never occurs inside a multi-byte UTF-8 sequence, so matching on bytes
    finds the same occurrences as matching on UTF-16 code units. *)

From Stdlib Require Import String Ascii List ZArith QArith Lia Bool.
From Stdlib Require Import DecimalString DecimalZ Permutation Sorted.
From Stdlib Require Import DecimalPos.
Import ListNotations.

Local Open Scope list_scope.
Local Open Scope string_scope.

(* ================================================================== *)
(** ** The JavaScript built-ins the component calls *)
(* ================================================================== *)

Module JS.

(** [s.slice(n)] *)
Fixpoint drop (n : nat) (s : string) : string :=
  match n, s with
  | O, _ => s
  | S _, EmptyString => EmptyString
  | S k, String _ s' => drop k s'
  end.

(** GetSubstitution (ECMA-262, 22.1.3.19.1) for a match without capture
    groups: [$$] is a dollar sign, [$&] the matched text, [$`] the text
    before the match, [$'] the text after it.  [$n] and [$<] refer to
    captures the patterns of this program do not have, and stay as written. *)
Fixpoint GetSubstitution (matched before after template : string) : string :=
  match template with
  | EmptyString => EmptyString
  | String c rest =>
      if (c =? "$")%char then
        match rest with
        | EmptyString => String c EmptyString
        | String d rest' =>
            if (d =? "$")%char then
              String "$" (GetSubstitution matched before after rest')
            else if (d =? "&")%char then
              matched ++ GetSubstitution matched before after rest'
            else if (d =? "`")%char then
              before ++ GetSubstitution matched before after rest'
            else if (d =? "'")%char then
              after ++ GetSubstitution matched before after rest'
            else String c (GetSubstitution matched before after rest)
        end
      else String c (GetSubstitution matched before after rest)
  end.

(** [s.replace(/pat/g, repl)] for a pattern [pat] that is a non-empty literal
    (no metacharacter: a brace that opens no quantifier is literal).  The
    scan goes left to right over the original string; [skip] counts the
    characters of the current match still to be consumed and [before] is the
    part of the original string already passed. *)
Fixpoint replaceFrom (pat repl : string) (skip : nat) (before s : string)
  : string :=
  match s with
  | EmptyString => EmptyString
  | String c s' =>
      match skip with
      | S k => replaceFrom pat repl k (before ++ String c "") s'
      | O =>
          if prefix pat s then
            GetSubstitution pat before (drop (String.length pat) s) repl
              ++ replaceFrom pat repl (String.length pat - 1)
                   (before ++ String c "") s'
          else String c (replaceFrom pat repl 0 (before ++ String c "") s')
      end
  end.

Definition replaceAll (pat repl s : string) : string :=
  replaceFrom pat repl 0 "" s.

(** [s.padStart(targetLength, padString)]: [filler k pad cur] is the first [k]
    characters of [pad] repeated, [cur] being what is left of the current
    copy. *)
Fixpoint filler (k : nat) (pad cur : string) : string :=
  match k with
  | O => EmptyString
  | S k' =>
      match cur with
      | String c cur' => String c (filler k' pad cur')
      | EmptyString =>
          match pad with
          | String c pad' => String c (filler k' pad pad')
          | EmptyString => EmptyString
          end
      end
  end.

Definition padStart (targetLength : nat) (padString s : string) : string :=
  if (targetLength <=? String.length s)%nat then s
  else filler (targetLength - String.length s) padString padString ++ s.

(** The Numbers the Date code handles are integers or NaN: [None] is NaN.
    [ToString] is Number::toString on them (integers below 10^21 in absolute
    value print as their decimal digits, with a minus sign when negative). *)
Definition Num : Type := option Z.

Definition ToString (n : Num) : string :=
  match n with
  | None => "NaN"
  | Some z => NilZero.string_of_int (Z.to_int z)
  end.

Definition add (a b : Num) : Num :=
  match a, b with
  | Some x, Some y => Some (x + y)%Z
  | _, _ => None
  end.

(** Subtraction of two time values.  Time values are integers of absolute
    value at most 8.64e15, so the double the engine computes has the sign of
    the exact difference, which is all the comparator's caller looks at. *)
Definition sub (a b : Num) : Num :=
  match a, b with
  | Some x, Some y => Some (x - y)%Z
  | _, _ => None
  end.

(** A Date object as the program observes it: its time value (milliseconds
    since the epoch) and the local-time fields its getters return.  [None]
    is an Invalid Date, whose time value and getters are all NaN. *)
Record LocalTime : Type := mkLocalTime {
  timeValue : Z;
  FullYear : Z;
  Month : Z;
  DayOfMonth : Z;
  Hours : Z;
  Minutes : Z
}.

Definition Date : Type := option LocalTime.

Definition valueOf (d : Date) : Num := option_map timeValue d.
Definition getFullYear (d : Date) : Num := option_map FullYear d.
Definition getMonth (d : Date) : Num := option_map Month d.
Definition getDate (d : Date) : Num := option_map DayOfMonth d.
Definition getHours (d : Date) : Num := option_map Hours d.
Definition getMinutes (d : Date) : Num := option_map Minutes d.

(** A Number as JSON.parse delivers it (the record's [mag]).  The two zeros
    are not told apart: both are falsy and both print as 0. *)
Inductive Number : Type :=
| NaN
| Infinity (negative : bool)
| Finite (q : Q).

Definition NumberToBoolean (n : Number) : bool :=
  match n with
  | NaN => false
  | Infinity _ => true
  | Finite q => negb (Qnum q =? 0)%Z
  end.

(** [a || b] and the test of [a ? b : c] on a string. *)
Definition StringToBoolean (s : string) : bool :=
  match s with
  | EmptyString => false
  | String _ _ => true
  end.

(** Exceptions: a computation returns a value or throws an Error with a
    message. *)
Inductive Result (A : Type) : Type :=
| Ok (a : A)
| Throw (message : string).

Arguments Ok {A} a.
Arguments Throw {A} message.

Definition bind {A B : Type} (r : Result A) (k : A -> Result B) : Result B :=
  match r with
  | Ok a => k a
  | Throw m => Throw m
  end.

Declare Scope js_scope.

Module Notations.
Delimit Scope js_scope with js.
Notation "x <- e ;; k" := (bind e (fun x => k))
  (at level 61, e at next level, right associativity) : js_scope.
End Notations.
Import Notations.

(** [arr.filter(f)] with a callback that may throw. *)
Fixpoint filter {A : Type} (f : A -> Result bool) (arr : list A)
  : Result (list A) :=
  match arr with
  | [] => Ok []
  | x :: rest =>
      (keep <- f x ;;
       kept <- filter f rest ;;
       Ok (if keep then x :: kept else kept))%js
  end.

(** [arr.includes(x)] on an array of strings (SameValueZero on strings is
    equality of contents). *)
Definition includes (arr : list string) (x : string) : bool :=
  existsb (String.eqb x) arr.

(** The property access [receiver.includes(x)]: a TypeError when the
    receiver is undefined or null. *)
Definition callIncludes (receiver : option (list string)) (x : string)
  : Result bool :=
  match receiver with
  | None => Throw "Cannot read properties of undefined (reading 'includes')"
  | Some arr => Ok (includes arr x)
  end.

(** SortCompare: the comparator's result, NaN counting as +0. *)
Definition SortCompare {A : Type} (comparefn : A -> A -> Num) (x y : A) : Z :=
  match comparefn x y with
  | None => 0%Z
  | Some v => v
  end.

(** [arr.sort(comparefn)].  The standard fixes the result for a consistent
    comparator: sorted, and stable.  Insertion from the right, an element
    going in front of the elements it does not compare greater than, is such
    a sort; on an inconsistent comparator (one that returns NaN for some
    pairs only) engines differ and this is one possible behaviour. *)
Fixpoint insert {A : Type} (comparefn : A -> A -> Num) (x : A) (l : list A)
  : list A :=
  match l with
  | [] => [x]
  | y :: l' =>
      if (SortCompare comparefn x y <=? 0)%Z then x :: y :: l'
      else y :: insert comparefn x l'
  end.

Fixpoint sort {A : Type} (comparefn : A -> A -> Num) (arr : list A) : list A :=
  match arr with
  | [] => []
  | x :: rest => insert comparefn x (sort comparefn rest)
  end.

(** [arr.find(f)] *)
Definition find {A : Type} (f : A -> bool) (arr : list A) : option A :=
  List.find f arr.

End JS.
Import JS.Notations.

(* ================================================================== *)
(** ** Template engine: [fillTemplate] (App.js, lines 16-23) *)
(* ================================================================== *)

(** The object literal [data] built in the second effect. *)
Module Data.
Record FieldMap : Type := mkFieldMap {
  time : string;
  epicenter : string;
  magnitude : string;
  maxIntensity : string;
  prefecture : string
}.
End Data.

Definition fillTemplate (template : string) (data : Data.FieldMap) : string :=
  JS.replaceAll "{prefecture}" (Data.prefecture data)
    (JS.replaceAll "{maxIntensity}" (Data.maxIntensity data)
       (JS.replaceAll "{magnitude}" (Data.magnitude data)
          (JS.replaceAll "{epicenter}" (Data.epicenter data)
             (JS.replaceAll "{time}" (Data.time data) template)))).

(* ================================================================== *)
(** ** Earthquake records and the host environment *)
(* ================================================================== *)

(** One element of the fetched JSON array.  [id] and [time] are strings;
    [pref], [name], [mag] and [maxInt] may be missing or null ([None]). *)
Module Quake.
Record EarthquakeRecord : Type := mkRecord {
  id : string;
  time : string;
  pref : option (list string);
  name : option string;
  mag : option JS.Number;
  maxInt : option string
}.
End Quake.
Abbreviation EarthquakeRecord := Quake.EarthquakeRecord.

(** What the engine supplies and the program does not define: the Date
    constructor on a string (parsing, and the viewer's time zone for the
    local fields) and the printing of a Number. *)
Class Host : Type := {
  newDate : string -> JS.Date;
  NumberToString : JS.Number -> string
}.

Section Core.
Context {host : Host}.

(* ------------------------------------------------------------------ *)
(** *** Earthquake selector (App.js, lines 49-54) *)

(** The filter callback [eq.pref && eq.pref.includes(selectedPref)]: the
    right operand is evaluated only when [eq.pref] is truthy (an array is,
    even when empty; undefined and null are not). *)
Definition prefTest (selectedPref : string) (eq : EarthquakeRecord)
  : JS.Result bool :=
  match Quake.pref eq with
  | Some _ => JS.callIncludes (Quake.pref eq) selectedPref
  | None => JS.Ok false
  end.

(** The sort callback [new Date(b.time) - new Date(a.time)]. *)
Definition byTimeDesc (a b : EarthquakeRecord) : JS.Num :=
  JS.sub (JS.valueOf (newDate (Quake.time b)))
         (JS.valueOf (newDate (Quake.time a))).

(** [data.filter(...).sort(...)], the value of [filtered]. *)
Definition selectCandidates (data : list EarthquakeRecord)
  (selectedPref : string) : JS.Result (list EarthquakeRecord) :=
  (kept <- JS.filter (prefTest selectedPref) data ;;
   JS.Ok (JS.sort byTimeDesc kept))%js.

(** [filtered.length > 0 ? filtered[0] : null] *)
Definition defaultSelection (filtered : list EarthquakeRecord)
  : option EarthquakeRecord :=
  if (0 <? List.length filtered)%nat then nth_error filtered 0 else None.

(* ------------------------------------------------------------------ *)
(** *** Field formatter (App.js, lines 69-82) *)

Definition formattedTime (date : JS.Date) : string :=
  JS.ToString (JS.getFullYear date) ++ "年"
  ++ JS.ToString (JS.add (JS.getMonth date) (Some 1%Z)) ++ "月"
  ++ JS.ToString (JS.getDate date) ++ "日 "
  ++ JS.ToString (JS.getHours date) ++ ":"
  ++ JS.padStart 2 "0" (JS.ToString (JS.getMinutes date)).

Definition formatFields (selectedEq : EarthquakeRecord) (selectedPref : string)
  : Data.FieldMap :=
  {| Data.time := formattedTime (newDate (Quake.time selectedEq));
     Data.epicenter :=
       match Quake.name selectedEq with
       | Some n => if JS.StringToBoolean n then n else "不明"
       | None => "不明"
       end;
     Data.magnitude :=
       match Quake.mag selectedEq with
       | Some m =>
           if JS.NumberToBoolean m then "M" ++ NumberToString m else "M不明"
       | None => "M不明"
       end;
     Data.maxIntensity :=
       match Quake.maxInt selectedEq with
       | Some i => if JS.StringToBoolean i then i else "不明"
       | None => "不明"
       end;
     Data.prefecture := selectedPref |}.

(* ------------------------------------------------------------------ *)
(** *** Application shell: state hooks, effects and handlers *)

Definition PREFECTURES : list string :=
  [ "北海道"; "青森"; "岩手"; "宮城"; "秋田"; "山形"; "福島";
    "茨城"; "栃木"; "群馬"; "埼玉"; "千葉"; "東京"; "神奈川";
    "新潟"; "富山"; "石川"; "福井"; "山梨"; "長野"; "岐阜";
    "静岡"; "愛知"; "三重"; "滋賀"; "京都"; "大阪"; "兵庫";
    "奈良"; "和歌山"; "鳥取"; "島根"; "岡山"; "広島"; "山口";
    "徳島"; "香川"; "愛媛"; "高知"; "福岡"; "佐賀"; "長崎";
    "熊本"; "大分"; "宮崎"; "鹿児島"; "沖縄" ].

Definition defaultTemplate : string :=
  "【地震情報】{time} 発生。震源地は {epicenter}、M{magnitude}、最大震度 {maxIntensity}。（{prefecture}県庁所在地）".

Definition noMatch : string := "該当する地震がありません".

(** The seven state hooks, and [inflight]: the fetches that were started and
    have not settled yet, each with the [selectedPref] its closure captured. *)
Record AppState : Type := mkApp {
  selectedPref : string;
  earthquakes : list EarthquakeRecord;
  selectedEq : option EarthquakeRecord;
  template : string;
  filled : string;
  loading : bool;
  error : option string;
  inflight : list string
}.

(** The values given to [useState]. *)
Definition initial : AppState :=
  {| selectedPref := nth 0 PREFECTURES "";
     earthquakes := [];
     selectedEq := None;
     template := defaultTemplate;
     filled := "";
     loading := false;
     error := None;
     inflight := [] |}.

(** A call of [fillTemplate], as the second effect makes it. *)
Inductive Call : Type :=
| CallFillTemplate (template : string) (data : Data.FieldMap).

(** The second effect (lines 66-87): the calls of [fillTemplate] it makes
    and the value it passes to [setFilled]. *)
Definition fillEffect (selectedEq : option EarthquakeRecord)
  (template selectedPref : string) : list Call * string :=
  match selectedEq with
  | Some eq =>
      let data := formatFields eq selectedPref in
      ([CallFillTemplate template data], fillTemplate template data)
  | None => ([], noMatch)
  end.

(** Its dependencies are all it reads, so running it after every state
    change gives [filled] the value React's dependency check gives it. *)
Definition runFillEffect (st : AppState) : AppState :=
  {| selectedPref := selectedPref st;
     earthquakes := earthquakes st;
     selectedEq := selectedEq st;
     template := template st;
     filled := snd (fillEffect (selectedEq st) (template st) (selectedPref st));
     loading := loading st;
     error := error st;
     inflight := inflight st |}.

(** The first effect up to its [await]: [setLoading(true)],
    [setError(null)], and the request is on its way. *)
Definition startFetch (st : AppState) : AppState :=
  {| selectedPref := selectedPref st;
     earthquakes := earthquakes st;
     selectedEq := selectedEq st;
     template := template st;
     filled := filled st;
     loading := true;
     error := None;
     inflight := (inflight st ++ [selectedPref st])%list |}.

(** How a fetch ends: the promise rejects, or a response arrives with its
    [ok] flag and the outcome of [response.json()]. *)
Inductive FetchOutcome : Type :=
| Rejected (message : string)
| Response (ok : bool) (json : JS.Result (list EarthquakeRecord)).

(** The [try] block after the first [await], for the closure that captured
    [pref]: the value of [filtered], or the exception thrown. *)
Definition tryBlock (pref : string) (outcome : FetchOutcome)
  : JS.Result (list EarthquakeRecord) :=
  match outcome with
  | Rejected message => JS.Throw message
  | Response ok json =>
      if negb ok then JS.Throw "API接続エラー"
      else (data <- json ;; selectCandidates data pref)%js
  end.

(** The rest of [fetchEarthquakes]: the two setters on success, [setError]
    in the [catch], [setLoading(false)] in the [finally]. *)
Definition finishFetch (pref : string) (outcome : FetchOutcome)
  (st : AppState) : AppState :=
  match tryBlock pref outcome with
  | JS.Ok filtered =>
      {| selectedPref := selectedPref st;
         earthquakes := filtered;
         selectedEq := defaultSelection filtered;
         template := template st;
         filled := filled st;
         loading := false;
         error := error st;
         inflight := inflight st |}
  | JS.Throw message =>
      {| selectedPref := selectedPref st;
         earthquakes := earthquakes st;
         selectedEq := selectedEq st;
         template := template st;
         filled := filled st;
         loading := false;
         error := Some message;
         inflight := inflight st |}
  end.

Fixpoint removeNth {A : Type} (i : nat) (l : list A) : list A :=
  match i, l with
  | _, [] => []
  | O, _ :: l' => l'
  | S j, x :: l' => x :: removeNth j l'
  end.

Definition setInflight (l : list string) (st : AppState) : AppState :=
  {| selectedPref := selectedPref st;
     earthquakes := earthquakes st;
     selectedEq := selectedEq st;
     template := template st;
     filled := filled st;
     loading := loading st;
     error := error st;
     inflight := l |}.

(** [setSelectedPref(e.target.value)] *)
Definition setSelectedPref (p : string) (st : AppState) : AppState :=
  {| selectedPref := p;
     earthquakes := earthquakes st;
     selectedEq := selectedEq st;
     template := template st;
     filled := filled st;
     loading := loading st;
     error := error st;
     inflight := inflight st |}.

(** The earthquake picker's handler (lines 125-128): [find] gives undefined
    when no record has the id, which is as falsy as null. *)
Definition onSelectEq (value : string) (st : AppState) : AppState :=
  {| selectedPref := selectedPref st;
     earthquakes := earthquakes st;
     selectedEq :=
       JS.find (fun eq => String.eqb (Quake.id eq) value) (earthquakes st);
     template := template st;
     filled := filled st;
     loading := loading st;
     error := error st;
     inflight := inflight st |}.

(** [setTemplate(e.target.value)] *)
Definition setTemplate (t : string) (st : AppState) : AppState :=
  {| selectedPref := selectedPref st;
     earthquakes := earthquakes st;
     selectedEq := selectedEq st;
     template := t;
     filled := filled st;
     loading := loading st;
     error := error st;
     inflight := inflight st |}.

(** The component after its first render and effects. *)
Definition mounted : AppState := runFillEffect (startFetch initial).

(** What can happen next: the user picks another prefecture, a fetch
    settles (in any order), the user picks an earthquake or edits the
    template. *)
Inductive Event : Type :=
| ChangePref (p : string)
| Settle (i : nat) (outcome : FetchOutcome)
| SelectEq (value : string)
| EditTemplate (t : string).

(** The pickers below the prefecture are rendered when [!loading && !error]. *)
Definition panelShown (st : AppState) : bool :=
  negb (loading st) && match error st with None => true | Some _ => false end.

(** One event, the setters its handler calls (taken together, as React
    batches them) and the effects they trigger; [None] when the page cannot
    produce the event in this state.  The states of the model are the
    settled ones: a render between a setter and the effect that follows it
    is not a state of its own. *)
Definition step (e : Event) (st : AppState) : option AppState :=
  match e with
  | ChangePref p =>
      if JS.includes PREFECTURES p && negb (String.eqb p (selectedPref st))
      then Some (runFillEffect (startFetch (setSelectedPref p st)))
      else None
  | Settle i outcome =>
      match nth_error (inflight st) i with
      | Some pref =>
          Some (runFillEffect
                  (finishFetch pref outcome
                     (setInflight (removeNth i (inflight st)) st)))
      | None => None
      end
  | SelectEq value =>
      if panelShown st && (0 <? List.length (earthquakes st))%nat
      then Some (runFillEffect (onSelectEq value st))
      else None
  | EditTemplate t =>
      if panelShown st then Some (runFillEffect (setTemplate t st)) else None
  end.

Inductive reachable : AppState -> Prop :=
| reach_mounted : reachable mounted
| reach_step e st st' :
    reachable st -> step e st = Some st' -> reachable st'.

(** The runs in which the user lets a fetch settle before picking another
    prefecture, so that at most one fetch is on its way at any time. *)
Inductive reachableInTurn : AppState -> Prop :=
| turn_mounted : reachableInTurn mounted
| turn_step e st st' :
    reachableInTurn st ->
    (forall p, e = ChangePref p -> inflight st = []) ->
    step e st = Some st' -> reachableInTurn st'.

(** Running a list of events from a state. *)
Fixpoint run (es : list Event) (st : AppState) : option AppState :=
  match es with
  | [] => Some st
  | e :: es' =>
      match step e st with
      | Some st' => run es' st'
      | None => None
      end
  end.

End Core.

(* ================================================================== *)
(** ** Specification-side definitions *)
(* ================================================================== *)

Module Spec.

(** [mem c s]: the character [c] occurs in [s]. *)
Fixpoint mem (c : ascii) (s : string) : bool :=
  match s with
  | EmptyString => false
  | String d s' => (c =? d)%char || mem c s'
  end.

(** [occursIn tok s]: [tok] occurs in [s] at some position. *)
Fixpoint occursIn (tok s : string) : bool :=
  prefix tok s ||
  match s with
  | EmptyString => false
  | String _ s' => occursIn tok s'
  end.

(** The five recognized tokens with the field each stands for. *)
Definition tokenTable (data : Data.FieldMap) : list (string * string) :=
  [ ("{time}", Data.time data);
    ("{epicenter}", Data.epicenter data);
    ("{magnitude}", Data.magnitude data);
    ("{maxIntensity}", Data.maxIntensity data);
    ("{prefecture}", Data.prefecture data) ].

Definition tokens : list string :=
  [ "{time}"; "{epicenter}"; "{magnitude}"; "{maxIntensity}"; "{prefecture}" ].

(** The first entry of the table whose token starts [s]. *)
Fixpoint lookupPrefix (table : list (string * string)) (s : string)
  : option (string * string) :=
  match table with
  | [] => None
  | (tok, v) :: table' =>
      if prefix tok s then Some (tok, v) else lookupPrefix table' s
  end.

(** Render as section 4.3 of the specification words it, to be compared with
    [fillTemplate]: one pass over the template in which every occurrence of
    a recognized token gives way to the field's value as it stands, and
    every other character is copied.  A value that was put in is not looked
    at again. *)
Fixpoint substFrom (table : list (string * string)) (skip : nat) (s : string)
  : string :=
  match s with
  | EmptyString => EmptyString
  | String c s' =>
      match skip with
      | S k => substFrom table k s'
      | O =>
          match lookupPrefix table s with
          | Some (tok, v) => v ++ substFrom table (String.length tok - 1) s'
          | None => String c (substFrom table 0 s')
          end
      end
  end.

Definition render (template : string) (data : Data.FieldMap) : string :=
  substFrom (tokenTable data) 0 template.

(** A value that [replace] copies as it is: no dollar sign. *)
Definition literal (v : string) : bool := negb (mem "$" v).

(** A value that cannot take part in a later match: it is not empty, its
    first character occurs in no token, and it holds no opening brace. *)
Definition inert (v : string) : bool :=
  match v with
  | EmptyString => false
  | String c _ =>
      negb (existsb (mem c) tokens) && negb (mem "{" v)
  end.

(** [affects P r]: the record's prefecture list is there and holds [P]. *)
Definition affects (P : string) (r : EarthquakeRecord) : bool :=
  match Quake.pref r with
  | Some arr => existsb (String.eqb P) arr
  | None => false
  end.

(** The occurrence timestamp of a record: the time value of the Date made
    from its [time], when that Date is valid. *)
Definition timestamp {host : Host} (r : EarthquakeRecord) : option Z :=
  JS.valueOf (newDate (Quake.time r)).

(** [dated r]: the record's [time] parses to a valid Date. *)
Definition dated {host : Host} (r : EarthquakeRecord) : Prop :=
  newDate (Quake.time r) <> None.

(** [notOlder a b]: both records have a timestamp and [a]'s is not before
    [b]'s. *)
Definition notOlder {host : Host} (a b : EarthquakeRecord) : Prop :=
  exists x y, timestamp a = Some x /\ timestamp b = Some y /\ (y <= x)%Z.

(** The field maps on which the five passes cannot interfere: no value
    holds a dollar sign, and the values of the first four passes are inert
    (the value of the last pass is not looked at by any pass). *)
Definition plainFields (data : Data.FieldMap) : bool :=
  forallb literal
    [ Data.time data; Data.epicenter data; Data.magnitude data;
      Data.maxIntensity data; Data.prefecture data ]
  && forallb inert
       [ Data.time data; Data.epicenter data; Data.magnitude data;
         Data.maxIntensity data ].

(** The decimal digit [n], for [0 <= n < 10]. *)
Definition digit (n : Z) : ascii := ascii_of_nat (48 + Z.to_nat n).

(** A number below 100 on two digits, with a leading zero below 10. *)
Definition twoDigits (n : Z) : string :=
  String (digit (n / 10)) (String (digit (n mod 10)) "").

(** A number below 100 without padding. *)
Definition unpadded (n : Z) : string :=
  if (n <? 10)%Z then String (digit n) "" else twoDigits n.

(** Reading a decimal numeral back. *)
Definition parseDecimal (s : string) : option Z :=
  option_map Z.of_int (NilZero.int_of_string s).

(** The record with its falsy optional fields taken away. *)
Definition absentIfFalsy (r : EarthquakeRecord) : EarthquakeRecord :=
  {| Quake.id := Quake.id r;
     Quake.time := Quake.time r;
     Quake.pref := Quake.pref r;
     Quake.name :=
       match Quake.name r with
       | Some n => if JS.StringToBoolean n then Some n else None
       | None => None
       end;
     Quake.mag :=
       match Quake.mag r with
       | Some m => if JS.NumberToBoolean m then Some m else None
       | None => None
       end;
     Quake.maxInt :=
       match Quake.maxInt r with
       | Some i => if JS.StringToBoolean i then Some i else None
       | None => None
       end |}.

End Spec.

(** The list on the screen is a candidate list, and the selection is one of
    its records. *)
Definition selectionInList {host : Host} (st : AppState) : Prop :=
  exists data Q,
    selectCandidates data Q = JS.Ok (earthquakes st)
    /\ forall r, selectedEq st = Some r ->
                 In r (earthquakes st) /\ Spec.affects Q r = true.

(** The list on the screen is the candidate list of the prefecture now
    selected, and the selection is one of its records. *)
Definition listIsCurrent {host : Host} (st : AppState) : Prop :=
  exists data,
    selectCandidates data (selectedPref st) = JS.Ok (earthquakes st)
    /\ forall r, selectedEq st = Some r -> In r (earthquakes st).

(* ================================================================== *)
(** ** Sample data for the examples *)
(* ================================================================== *)

Module Sample.

(** A host for the examples: it knows two timestamps, in a viewer's zone of
    UTC+9, and prints a Number with at most one decimal. *)
Definition parse (s : string) : JS.Date :=
  if String.eqb s "2025-03-15T14:30:00+09:00" then
    Some (JS.mkLocalTime 1742016600000 2025 2 15 14 30)
  else if String.eqb s "2025-03-14T09:05:00+09:00" then
    Some (JS.mkLocalTime 1741910700000 2025 2 14 9 5)
  else None.

Definition print (n : JS.Number) : string :=
  match n with
  | JS.NaN => "NaN"
  | JS.Infinity false => "Infinity"
  | JS.Infinity true => "-Infinity"
  | JS.Finite q =>
      let whole := (Qnum q / Zpos (Qden q))%Z in
      let tenth := ((10 * Qnum q / Zpos (Qden q)) mod 10)%Z in
      if (tenth =? 0)%Z then JS.ToString (Some whole)
      else JS.ToString (Some whole) ++ "." ++ JS.ToString (Some tenth)
  end.

Definition host : Host :=
  {| newDate := parse; NumberToString := print |}.

Definition fields : Data.FieldMap :=
  Data.mkFieldMap "2025年3月15日 14:30" "能登半島沖" "M6.1" "5-" "石川".

Definition quakeHokkaido : EarthquakeRecord :=
  Quake.mkRecord "20250315143000" "2025-03-15T14:30:00+09:00"
    (Some ["北海道"; "青森"]) (Some "釧路沖") (Some (JS.Finite (61 # 10)))
    (Some "4").

Definition quakeOlder : EarthquakeRecord :=
  Quake.mkRecord "20250314090500" "2025-03-14T09:05:00+09:00"
    (Some ["北海道"]) (Some "") (Some (JS.Finite 0)) (Some "").

Definition quakeOkinawa : EarthquakeRecord :=
  Quake.mkRecord "20250314090501" "2025-03-14T09:05:00+09:00"
    (Some ["沖縄"]) None None None.

Definition quakeNoPref : EarthquakeRecord :=
  Quake.mkRecord "20250314090502" "2025-03-14T09:05:00+09:00"
    None (Some "不明") None None.

Definition feed : list EarthquakeRecord :=
  [ quakeOlder; quakeOkinawa; quakeHokkaido; quakeNoPref ].

(** The state a list of events leads to from the mounted component. *)
Definition after (es : list Event) : AppState :=
  match @run host es (@mounted host) with
  | Some st => st
  | None => @mounted host
  end.

(** The user switches to Okinawa while the first fetch is on its way; both
    fetches answer in turn, the second with a feed that has nothing for
    Okinawa. *)
Definition okinawaEmpty : AppState :=
  after [ ChangePref "沖縄";
          Settle 0 (Response true (JS.Ok feed));
          Settle 0 (Response true (JS.Ok [quakeHokkaido])) ].

(** The first fetch answers, the user switches to Okinawa, and the fetch
    for Okinawa answers. *)
Definition okinawaLoaded : AppState :=
  after [ Settle 0 (Response true (JS.Ok feed));
          ChangePref "沖縄";
          Settle 0 (Response true (JS.Ok feed)) ].

(** The first fetch answers and the user switches to Okinawa. *)
Definition okinawaLoading : AppState :=
  after [ Settle 0 (Response true (JS.Ok feed)); ChangePref "沖縄" ].

(** The fetch for Okinawa then fails. *)
Definition okinawaFailed : AppState :=
  after [ Settle 0 (Response true (JS.Ok feed));
          ChangePref "沖縄";
          Settle 0 (Rejected "Failed to fetch") ].

(** The two fetches answer in the other order: the one for Okinawa first,
    the one started for Hokkaido last. *)
Definition outOfOrder : AppState :=
  after [ ChangePref "沖縄";
          Settle 1 (Response true (JS.Ok feed));
          Settle 0 (Response true (JS.Ok feed)) ].

End Sample.

(* ================================================================== *)
(** ** Further definitions: field maps, feeds, the screen, the copy button *)
(* ================================================================== *)

(** The field maps all of whose values are inert and hold no dollar sign. *)
Definition inertFields (data : Data.FieldMap) : bool :=
  forallb (fun v => Spec.inert v && Spec.literal v)
    [ Data.time data; Data.epicenter data; Data.magnitude data;
      Data.maxIntensity data; Data.prefecture data ].

(** What the getters of a valid Date guarantee. *)
Definition getterRanges (d : JS.LocalTime) : Prop :=
  (0 <= JS.Month d < 12)%Z /\ (1 <= JS.DayOfMonth d <= 31)%Z
  /\ (0 <= JS.Hours d < 24)%Z /\ (0 <= JS.Minutes d < 60)%Z.

(** [atTime t r]: the record's timestamp is [t]. *)
Definition atTime {host : Host} (t : Z) (r : EarthquakeRecord) : bool :=
  match Spec.timestamp r with
  | Some x => (x =? t)%Z
  | None => false
  end.

(** A feed that is already newest first, and two records of Hokkaido with
    the same timestamp. *)
Module MoreSamples.

Definition quakeTwin : EarthquakeRecord :=
  Quake.mkRecord "20250314090503" "2025-03-14T09:05:00+09:00"
    (Some ["青森"; "北海道"]) (Some "浦河沖") (Some (JS.Finite (32 # 10)))
    (Some "2").

Definition sortedFeed : list EarthquakeRecord :=
  [ Sample.quakeHokkaido; Sample.quakeOkinawa; quakeTwin;
    Sample.quakeOlder ].

Definition tiedFeed : list EarthquakeRecord :=
  [ quakeTwin; Sample.quakeOkinawa; Sample.quakeHokkaido;
    Sample.quakeOlder ].

End MoreSamples.

(* ------------------------------------------------------------------ *)
(** *** What is on the screen (App.js, lines 98-167) *)

(** [{loading && <p>...</p>}] *)
Definition loadingShown (st : AppState) : bool := loading st.

(** [{error && <p className="error">エラー: {error}</p>}]: the text of the
    paragraph, when there is one.  An empty message is falsy. *)
Definition errorShown (st : AppState) : option string :=
  match error st with
  | Some m => if JS.StringToBoolean m then Some ("エラー: " ++ m) else None
  | None => None
  end.

(** [!loading && !error]: the two pickers' panel, the template editor, the
    result and the copy button are rendered. *)
Definition panelVisible (st : AppState) : bool :=
  negb (loading st)
  && negb match error st with
          | Some m => JS.StringToBoolean m
          | None => false
          end.

(** [value={selectedEq?.id || ""}] *)
Definition pickerValue (st : AppState) : string :=
  match selectedEq st with
  | Some eq => if JS.StringToBoolean (Quake.id eq) then Quake.id eq else ""
  | None => ""
  end.

(** [disabled={earthquakes.length === 0}] *)
Definition pickerDisabled (st : AppState) : bool :=
  (List.length (earthquakes st) =? 0)%nat.

(** The values of the picker's options: the ids of the listed records, or
    the text of the one option without a value when the list is empty. *)
Definition optionValues (st : AppState) : list string :=
  if (List.length (earthquakes st) =? 0)%nat then ["該当する地震なし"]
  else map Quake.id (earthquakes st).

(** [<pre>{filled}</pre>] *)
Definition resultShown (st : AppState) : string := filled st.

(* ------------------------------------------------------------------ *)
(** *** The copy button (App.js, lines 89-96) *)



(* ------------------------------------------------------------------ *)
(** *** Runs of the handlers *)

Section Handlers.
Context {host : Host}.

(** The handler of an event with the effects it triggers, as [step] has
    them, whether or not the control that raises the event is on the
    screen: an invariant of these runs holds whatever the page shows. *)
Definition handle (e : Event) (st : AppState) : option AppState :=
  match e with
  | SelectEq value => Some (runFillEffect (onSelectEq value st))
  | EditTemplate t => Some (runFillEffect (setTemplate t st))
  | ChangePref _ | Settle _ _ => step e st
  end.

Inductive handled : AppState -> Prop :=
| handled_mounted : handled mounted
| handled_step e st st' :
    handled st -> handle e st = Some st' -> handled st'.

Definition isChangePref (e : Event) : bool :=
  match e with ChangePref _ => true | _ => false end.

Definition isSettle (e : Event) : bool :=
  match e with Settle _ _ => true | _ => false end.

End Handlers.

(* ================================================================== *)
(** ** Strings: prefixes and the scanning functions *)
(* ================================================================== *)

Section StringFacts.

Lemma append_nil_r (s : string) : s ++ "" = s.
Proof. induction s as [|c s IH]; simpl; [reflexivity | now rewrite IH]. Qed.

Lemma append_assoc (a b c : string) : (a ++ b) ++ c = a ++ (b ++ c).
Proof. induction a as [|x a IH]; simpl; [reflexivity | now rewrite IH]. Qed.

Lemma length_append (a b : string) :
  String.length (a ++ b) = (String.length a + String.length b)%nat.
Proof. induction a as [|x a IH]; simpl; [reflexivity | now rewrite IH]. Qed.

Lemma prefix_cons (c d : ascii) (p s : string) :
  prefix (String c p) (String d s) = (c =? d)%char && prefix p s.
Proof.
  simpl. destruct (ascii_dec c d) as [->|ne].
  - now rewrite Ascii.eqb_refl.
  - apply Ascii.eqb_neq in ne. now rewrite ne.
Qed.

Lemma prefix_nil (s : string) : prefix "" s = true.
Proof. now destruct s. Qed.

Lemma prefix_append (p s : string) : prefix p (p ++ s) = true.
Proof.
  induction p as [|c p IH]; [apply prefix_nil|].
  change (String c p ++ s) with (String c (p ++ s)).
  now rewrite prefix_cons, Ascii.eqb_refl.
Qed.

Lemma prefix_split (p s : string) :
  prefix p s = true -> s = p ++ JS.drop (String.length p) s.
Proof.
  revert s. induction p as [|c p IH]; intros s H; [reflexivity|].
  destruct s as [|d s]; [discriminate|].
  rewrite prefix_cons in H. apply andb_prop in H as [Hc Hp].
  apply Ascii.eqb_eq in Hc. subst d. simpl. f_equal. now apply IH.
Qed.

Lemma drop_append (p s : string) : JS.drop (String.length p) (p ++ s) = s.
Proof. induction p as [|c p IH]; simpl; [now destruct s | exact IH]. Qed.

Lemma prefix_head_neq (c d : ascii) (p s : string) :
  c <> d -> prefix (String c p) (String d s) = false.
Proof.
  intros ne. rewrite prefix_cons. apply Ascii.eqb_neq in ne. now rewrite ne.
Qed.

Lemma mem_cons (c d : ascii) (s : string) :
  Spec.mem c (String d s) = (c =? d)%char || Spec.mem c s.
Proof. reflexivity. Qed.

Lemma occursIn_unfold (tok s : string) :
  Spec.occursIn tok s
  = prefix tok s ||
    match s with
    | EmptyString => false
    | String _ s' => Spec.occursIn tok s'
    end.
Proof. now destruct s. Qed.

(** [occursIn] is the usual notion of a substring. *)
Lemma occursIn_spec (tok s : string) :
  Spec.occursIn tok s = true <-> exists a b, s = a ++ tok ++ b.
Proof.
  split.
  - induction s as [|c s IH]; simpl; intros H.
    + apply orb_prop in H as [H|H]; [|discriminate].
      exists "", "". destruct tok; [reflexivity | discriminate].
    + apply orb_prop in H as [H|H].
      * exists "", (JS.drop (String.length tok) (String c s)).
        now apply prefix_split.
      * destruct (IH H) as (a & b & ->). now exists (String c a), b.
  - intros (a & b & ->). induction a as [|c a IH].
    + change ("" ++ tok ++ b) with (tok ++ b).
      rewrite occursIn_unfold, prefix_append. reflexivity.
    + change (String c a ++ tok ++ b) with (String c (a ++ tok ++ b)).
      rewrite occursIn_unfold, IH. apply orb_true_r.
Qed.

End StringFacts.

(* ================================================================== *)
(** ** One [replace] pass *)
(* ================================================================== *)

Section ReplacePass.

Variables pat repl : string.

Lemma GetSubstitution_literal (matched before after v : string) :
  Spec.literal v = true -> JS.GetSubstitution matched before after v = v.
Proof.
  unfold Spec.literal. induction v as [|c v IH]; [reflexivity|].
  rewrite mem_cons, negb_orb. intros H. apply andb_prop in H as [Hc Hv].
  simpl. rewrite Ascii.eqb_sym. apply negb_true_iff in Hc. rewrite Hc.
  now rewrite IH.
Qed.

(** A character that does not start a match is copied. *)
Lemma replaceFrom_copy (c : ascii) (before x : string) :
  prefix pat (String c x) = false ->
  JS.replaceFrom pat repl 0 before (String c x)
  = String c (JS.replaceFrom pat repl 0 (before ++ String c "") x).
Proof. intros H. cbn [JS.replaceFrom]. now rewrite H. Qed.

(** Skipping over the characters of a match. *)
Lemma replaceFrom_skip (w before x : string) :
  JS.replaceFrom pat repl (String.length w) before (w ++ x)
  = JS.replaceFrom pat repl 0 (before ++ w) x.
Proof.
  revert before. induction w as [|c w IH]; intros before.
  - now rewrite append_nil_r.
  - simpl. rewrite IH, append_assoc. reflexivity.
Qed.

(** A match gives way to the replacement. *)
Lemma replaceFrom_match (before x : string) :
  pat <> "" ->
  JS.replaceFrom pat repl 0 before (pat ++ x)
  = JS.GetSubstitution pat before x repl
    ++ JS.replaceFrom pat repl 0 (before ++ pat) x.
Proof.
  intros ne. destruct pat as [|h body] eqn:E; [congruence|].
  rewrite <- E.
  pose proof (prefix_append pat x) as Hp.
  pose proof (drop_append pat x) as Hd.
  assert (Hx : pat ++ x = String h (body ++ x)) by (now rewrite E).
  rewrite Hx in *. cbn [JS.replaceFrom]. rewrite Hp, Hd. f_equal.
  replace (String.length pat - 1)%nat with (String.length body)
    by (rewrite E; simpl; lia).
  rewrite replaceFrom_skip, append_assoc. simpl. now rewrite <- E.
Qed.

(** Where the pattern does not occur, the pass changes nothing. *)
Lemma replaceFrom_absent (before s : string) :
  Spec.occursIn pat s = false ->
  JS.replaceFrom pat repl 0 before s = s.
Proof.
  revert before. induction s as [|c s IH]; intros before H; [reflexivity|].
  simpl in H. apply orb_false_elim in H as [Hp Ho].
  rewrite replaceFrom_copy by exact Hp. now rewrite IH.
Qed.

(** Text without the pattern's first character is copied, whatever
    follows. *)
Lemma replaceFrom_through (h : ascii) (body v before x : string) :
  pat = String h body -> Spec.mem h v = false ->
  JS.replaceFrom pat repl 0 before (v ++ x)
  = v ++ JS.replaceFrom pat repl 0 (before ++ v) x.
Proof.
  intros E. revert before. induction v as [|c v IH]; intros before H.
  - now rewrite append_nil_r.
  - rewrite mem_cons in H. apply orb_false_elim in H as [Hc Hv].
    change (String c v ++ x) with (String c (v ++ x)).
    rewrite replaceFrom_copy.
    + rewrite IH by exact Hv. now rewrite append_assoc.
    + rewrite E. apply prefix_head_neq. now apply Ascii.eqb_neq.
Qed.

End ReplacePass.

(* ================================================================== *)
(** ** The one-pass substitution, and a pass added at its end *)
(* ================================================================== *)

Section OnePass.

Variable table : list (string * string).

Lemma lookupPrefix_some (s tok v : string) :
  Spec.lookupPrefix table s = Some (tok, v) ->
  In (tok, v) table /\ prefix tok s = true.
Proof.
  induction table as [|[t w] tb IH]; simpl; [discriminate|].
  destruct (prefix t s) eqn:P.
  - intros [= -> ->]. auto.
  - intros H. destruct (IH H). auto.
Qed.

Lemma substFrom_copy (c : ascii) (x : string) :
  Spec.lookupPrefix table (String c x) = None ->
  Spec.substFrom table 0 (String c x) = String c (Spec.substFrom table 0 x).
Proof. intros H. cbn [Spec.substFrom]. now rewrite H. Qed.

Lemma substFrom_skip (w x : string) :
  Spec.substFrom table (String.length w) (w ++ x) = Spec.substFrom table 0 x.
Proof. induction w as [|c w IH]; [reflexivity | exact IH]. Qed.

Lemma substFrom_match (s tok v : string) :
  Spec.lookupPrefix table s = Some (tok, v) -> tok <> "" ->
  Spec.substFrom table 0 s
  = v ++ Spec.substFrom table 0 (JS.drop (String.length tok) s).
Proof.
  intros L ne. destruct (lookupPrefix_some _ _ _ L) as [_ P].
  apply prefix_split in P. set (x := JS.drop (String.length tok) s) in *.
  destruct tok as [|h body]; [congruence|].
  rewrite P in L |- *.
  change (String h body ++ x) with (String h (body ++ x)) in *.
  cbn [Spec.substFrom]. rewrite L. f_equal.
  replace (String.length (String h body) - 1)%nat with (String.length body)
    by (simpl; lia).
  apply substFrom_skip.
Qed.

End OnePass.

Lemma substFrom_empty_table (s : string) : Spec.substFrom [] 0 s = s.
Proof. induction s as [|c s IH]; simpl; [reflexivity | now rewrite IH]. Qed.

Section AddPass.

(** A table [table] whose tokens all start with [opening], and a further
    token [tp = opening :: body] with value [vp] whose pass comes after. *)
Variable table : list (string * string).
Variable opening : ascii.
Variables tp body vp : string.

Hypothesis tp_shape : tp = String opening body.
Hypothesis body_closed : Spec.mem opening body = false.
Hypothesis table_tokens :
  Forall (fun p => exists b, fst p = String opening b) table.
Hypothesis table_values :
  Forall (fun p => exists c v', snd p = String c v'
                     /\ Spec.mem c tp = false
                     /\ Spec.mem opening (snd p) = false) table.
Hypothesis vp_literal : Spec.literal vp = true.

Let table' : list (string * string) := (table ++ [(tp, vp)])%list.

Lemma lookupPrefix_added (s : string) :
  Spec.lookupPrefix table' s
  = match Spec.lookupPrefix table s with
    | Some r => Some r
    | None => if prefix tp s then Some (tp, vp) else None
    end.
Proof.
  unfold table'. clear table_tokens table_values.
  induction table as [|[t w] tb IH]; simpl; [reflexivity|].
  destruct (prefix t s); [reflexivity | exact IH].
Qed.

Lemma lookupPrefix_other_head (c : ascii) (x : string) :
  c <> opening -> Spec.lookupPrefix table (String c x) = None.
Proof.
  intros ne. clear table_values.
  induction table as [|[t w] tb IH]; [reflexivity|].
  inversion table_tokens as [|p l [b Hb] Hl]; subst. simpl in Hb. subst t.
  cbn [Spec.lookupPrefix]. rewrite prefix_head_neq by congruence.
  now apply IH.
Qed.

Lemma substFrom_through (w x : string) :
  Spec.mem opening w = false ->
  Spec.substFrom table 0 (w ++ x) = w ++ Spec.substFrom table 0 x.
Proof.
  induction w as [|c w IH]; intros H; [reflexivity|].
  rewrite mem_cons in H. apply orb_false_elim in H as [Hc Hw].
  change (String c w ++ x) with (String c (w ++ x)).
  rewrite substFrom_copy.
  - now rewrite IH.
  - apply lookupPrefix_other_head. intros ->.
    now rewrite Ascii.eqb_refl in Hc.
Qed.

(** No part of [tp] comes out of a value: a prefix of the output that is
    made of characters of [tp] was in the input already. *)
Lemma prefix_of_output (w s : string) :
  (forall c, Spec.mem c w = true -> Spec.mem c tp = true) ->
  prefix w (Spec.substFrom table 0 s) = true -> prefix w s = true.
Proof.
  revert s. induction w as [|a w IH]; intros s Hw H; [apply prefix_nil|].
  destruct s as [|c s]; [discriminate H|].
  destruct (Spec.lookupPrefix table (String c s)) as [[t v]|] eqn:L.
  - exfalso. destruct (lookupPrefix_some _ _ _ _ L) as [Hin P].
    assert (ne : t <> "").
    { rewrite Forall_forall in table_tokens.
      destruct (table_tokens _ Hin) as [b Hb]. simpl in Hb. congruence. }
    rewrite (substFrom_match _ _ _ _ L ne) in H.
    rewrite Forall_forall in table_values.
    destruct (table_values _ Hin) as (c0 & v' & Hv & Hc0 & _).
    simpl in Hv. subst v.
    change (String c0 v' ++ ?y) with (String c0 (v' ++ y)) in H.
    rewrite prefix_cons in H. apply andb_prop in H as [Ha _].
    apply Ascii.eqb_eq in Ha. subst c0.
    rewrite Hw in Hc0; [discriminate|].
    rewrite mem_cons, Ascii.eqb_refl. reflexivity.
  - rewrite substFrom_copy in H by exact L.
    rewrite prefix_cons in H |- *. apply andb_prop in H as [Ha Hp].
    rewrite Ha. simpl. apply IH; [|exact Hp].
    intros c' Hc'. apply Hw. rewrite mem_cons, Hc'. apply orb_true_r.
Qed.

Lemma add_pass_bounded (n : nat) :
  forall s before, (String.length s <= n)%nat ->
  Spec.substFrom table' 0 s
  = JS.replaceFrom tp vp 0 before (Spec.substFrom table 0 s).
Proof.
  assert (tp_ne : tp <> "") by (rewrite tp_shape; discriminate).
  induction n as [|n IH]; intros s before Hlen.
  { destruct s; [reflexivity | simpl in Hlen; lia]. }
  destruct s as [|c s]; [reflexivity|].
  pose proof (lookupPrefix_added (String c s)) as L'.
  destruct (Spec.lookupPrefix table (String c s)) as [[t v]|] eqn:L.
  - destruct (lookupPrefix_some _ _ _ _ L) as [Hin P].
    pose proof table_tokens as Ht. rewrite Forall_forall in Ht.
    destruct (Ht _ Hin) as [b Hb]. simpl in Hb.
    assert (ne : t <> "") by congruence.
    pose proof table_values as Hv. rewrite Forall_forall in Hv.
    destruct (Hv _ Hin) as (_ & _ & _ & _ & Hopen). simpl in Hopen.
    rewrite (substFrom_match _ _ _ _ L' ne), (substFrom_match _ _ _ _ L ne).
    rewrite (replaceFrom_through tp vp opening body) by assumption.
    f_equal. apply IH.
    apply prefix_split in P. apply (f_equal String.length) in P.
    rewrite length_append, Hb in P. subst t. simpl in P, Hlen |- *. lia.
  - destruct (prefix tp (String c s)) eqn:P.
    + rewrite (substFrom_match _ _ _ _ L' tp_ne).
      apply prefix_split in P.
      remember (JS.drop (String.length tp) (String c s)) as x eqn:Ex.
      assert (Hx : String c s = String opening (body ++ x))
        by (now rewrite P, tp_shape).
      clear Ex P. injection Hx as -> ->.
      rewrite (substFrom_copy _ _ _ L), substFrom_through by exact body_closed.
      change (String opening (body ++ ?y)) with (String opening body ++ y).
      rewrite <- tp_shape, replaceFrom_match by exact tp_ne.
      rewrite GetSubstitution_literal by exact vp_literal.
      f_equal. apply IH.
      simpl in Hlen. rewrite length_append in Hlen. lia.
    + rewrite (substFrom_copy _ _ _ L'), (substFrom_copy _ _ _ L).
      rewrite replaceFrom_copy.
      * f_equal. apply IH. simpl in Hlen. lia.
      * destruct (prefix tp (String c (Spec.substFrom table 0 s))) eqn:Q;
          [|reflexivity].
        rewrite tp_shape, prefix_cons in Q, P.
        apply andb_prop in Q as [Qc Qb]. rewrite Qc in P. simpl in P.
        rewrite (prefix_of_output body s) in P; [discriminate| |exact Qb].
        intros c' Hc'. rewrite tp_shape, mem_cons, Hc'. apply orb_true_r.
Qed.

(** The simultaneous substitution over [table] followed by the pass for
    [tp] is the simultaneous substitution over the longer table. *)
Lemma add_pass (s : string) :
  JS.replaceAll tp vp (Spec.substFrom table 0 s)
  = Spec.substFrom table' 0 s.
Proof.
  unfold JS.replaceAll. symmetry.
  now apply (add_pass_bounded (String.length s)).
Qed.

End AddPass.

(* ================================================================== *)
(** ** Template engine: claims C1 and C7 *)
(* ================================================================== *)

Example fillTemplate_spec_example :
  fillTemplate "{time} M{magnitude} {prefecture}"
    (Data.mkFieldMap "2025年3月15日 14:30" "" "6.1" "" "東京")
  = "2025年3月15日 14:30 M6.1 東京".
Proof. reflexivity. Qed.

(** A replacement pattern in a value is expanded, not copied. *)
Example fillTemplate_dollar_patterns :
  fillTemplate "a{epicenter}b" (Data.mkFieldMap "" "[$&|$`|$'|$$]" "" "" "")
  = "a[{epicenter}|a|b|$]b".
Proof. reflexivity. Qed.

Lemma inert_elim (v tok : string) :
  Spec.inert v = true -> In tok Spec.tokens ->
  exists c v', v = String c v'
    /\ Spec.mem c tok = false /\ Spec.mem "{" v = false.
Proof.
  unfold Spec.inert. destruct v as [|c v']; [discriminate|].
  intros H Hin. apply andb_prop in H as [Hc Hb].
  apply negb_true_iff in Hc, Hb. exists c, v'. repeat split; [|exact Hb].
  destruct (Spec.mem c tok) eqn:M; [|reflexivity].
  assert (existsb (Spec.mem c) Spec.tokens = true); [|congruence].
  apply existsb_exists. eauto.
Qed.

Ltac token_in := unfold Spec.tokens; simpl; tauto.

Ltac table_side :=
  repeat match goal with
    | |- Forall _ [] => constructor
    | |- Forall _ (_ :: _) => constructor
    | |- exists b, fst (String _ ?body, _) = String _ b =>
        exists body; reflexivity
    | |- exists c v', snd (_, ?v) = String c v' /\ _ =>
        simpl snd; apply inert_elim; [assumption | token_in]
    end.

Ltac pass_side := first [reflexivity | assumption | solve [table_side]].

(** C1 (as amended).  On a field map whose values hold no dollar sign and
    whose time, epicenter, magnitude and maxIntensity values are inert (not
    empty, first character in no token, no opening brace), the five chained
    replace passes of [fillTemplate] put each value, as it stands, in the
    place of every occurrence of its token in the template and copy every
    other character: [fillTemplate] is the one-pass [Spec.render]. *)
Theorem fillTemplate_render (T : string) (F : Data.FieldMap) :
  Spec.plainFields F = true -> fillTemplate T F = Spec.render T F.
Proof.
  unfold Spec.plainFields. intros H. apply andb_prop in H as [Hl Hi].
  cbn [forallb] in Hl, Hi.
  repeat match goal with
    | H : _ && _ = true |- _ => apply andb_prop in H as [? ?]
    end.
  unfold fillTemplate, Spec.render, Spec.tokenTable.
  rewrite <- (substFrom_empty_table T) at 1.
  rewrite (add_pass [] "{" "{time}" "time}"); [cbn [app] | pass_side..].
  rewrite (add_pass _ "{" "{epicenter}" "epicenter}");
    [cbn [app] | pass_side..].
  rewrite (add_pass _ "{" "{magnitude}" "magnitude}");
    [cbn [app] | pass_side..].
  rewrite (add_pass _ "{" "{maxIntensity}" "maxIntensity}");
    [cbn [app] | pass_side..].
  rewrite (add_pass _ "{" "{prefecture}" "prefecture}");
    [cbn [app] | pass_side..].
  reflexivity.
Qed.

Lemma fillTemplate_render_witness :
  Spec.plainFields Sample.fields = true
  /\ fillTemplate "{time}、{epicenter}、{magnitude}、{time}" Sample.fields
     = Spec.render "{time}、{epicenter}、{magnitude}、{time}" Sample.fields.
Proof.
  split; [reflexivity | apply fillTemplate_render; reflexivity].
Defined.

(** C1 as the specification words it fails: a value that holds a token of
    a later pass is substituted again.  An epicenter name comes from the
    feed as it is, and this one is replaced by the prefecture. *)
Lemma fillTemplate_resubstitutes :
  fillTemplate "{epicenter}"
    (Data.mkFieldMap "2025年3月15日 14:30" "{prefecture}" "M6.1" "4" "東京")
  = "東京"
  /\ Spec.render "{epicenter}"
       (Data.mkFieldMap "2025年3月15日 14:30" "{prefecture}" "M6.1" "4" "東京")
     = "{prefecture}"
  /\ ~ (forall T F, fillTemplate T F = Spec.render T F).
Proof.
  split; [reflexivity | split; [reflexivity|]].
  intros H.
  specialize
    (H "{epicenter}"
       (Data.mkFieldMap "2025年3月15日 14:30" "{prefecture}" "M6.1" "4" "東京")).
  discriminate H.
Qed.

(** C7.  A template in which none of the five tokens occurs is returned
    unchanged, whatever the fields hold. *)
Theorem fillTemplate_token_free (T : string) (F : Data.FieldMap) :
  (forall tok, In tok Spec.tokens -> ~ exists a b, T = a ++ tok ++ b) ->
  fillTemplate T F = T.
Proof.
  intros H.
  assert (A : forall tok, In tok Spec.tokens -> Spec.occursIn tok T = false).
  { intros tok Hin. destruct (Spec.occursIn tok T) eqn:O; [|reflexivity].
    apply occursIn_spec in O. now destruct (H tok Hin). }
  unfold fillTemplate, JS.replaceAll.
  rewrite (replaceFrom_absent "{time}") by (apply A; token_in).
  rewrite (replaceFrom_absent "{epicenter}") by (apply A; token_in).
  rewrite (replaceFrom_absent "{magnitude}") by (apply A; token_in).
  rewrite (replaceFrom_absent "{maxIntensity}") by (apply A; token_in).
  rewrite (replaceFrom_absent "{prefecture}") by (apply A; token_in).
  reflexivity.
Qed.

Lemma fillTemplate_token_free_witness :
  (forall tok, In tok Spec.tokens ->
     ~ exists a b, "{date} {Time} {time }{" = a ++ tok ++ b)
  /\ fillTemplate "{date} {Time} {time }{" Sample.fields
     = "{date} {Time} {time }{".
Proof.
  assert (H : forall tok, In tok Spec.tokens ->
                ~ exists a b, "{date} {Time} {time }{" = a ++ tok ++ b).
  { intros tok Hin Hex. apply occursIn_spec in Hex.
    unfold Spec.tokens in Hin. simpl in Hin.
    repeat (destruct Hin as [<-|Hin]; [discriminate Hex|]).
    exact Hin. }
  split; [exact H | exact (fillTemplate_token_free _ Sample.fields H)].
Defined.

(* ================================================================== *)
(** ** Earthquake selector: claims C2, C5 and C10 *)
(* ================================================================== *)

Section Selector.
Context {host : Host}.

Lemma includes_In (arr : list string) (x : string) :
  JS.includes arr x = true <-> In x arr.
Proof.
  unfold JS.includes. rewrite existsb_exists. split.
  - intros (y & Hy & E). apply String.eqb_eq in E. now subst.
  - intros H. exists x. split; [exact H | apply String.eqb_refl].
Qed.

Lemma prefTest_affects (P : string) (r : EarthquakeRecord) :
  prefTest P r = JS.Ok (Spec.affects P r).
Proof. unfold prefTest, Spec.affects. now destruct (Quake.pref r). Qed.

(** The filter callback never throws, so [filter] is the list filter. *)
Lemma filter_prefTest (P : string) (data : list EarthquakeRecord) :
  JS.filter (prefTest P) data = JS.Ok (List.filter (Spec.affects P) data).
Proof.
  induction data as [|r data IH]; [reflexivity|].
  simpl. rewrite prefTest_affects, IH. simpl.
  now destruct (Spec.affects P r).
Qed.

Lemma selectCandidates_value (data : list EarthquakeRecord) (P : string) :
  selectCandidates data P
  = JS.Ok (JS.sort byTimeDesc (List.filter (Spec.affects P) data)).
Proof. unfold selectCandidates. now rewrite filter_prefTest. Qed.

Lemma insert_Permutation {A : Type} (cmp : A -> A -> JS.Num) (x : A)
  (l : list A) : Permutation (JS.insert cmp x l) (x :: l).
Proof.
  induction l as [|y l IH]; simpl; [reflexivity|].
  destruct (JS.SortCompare cmp x y <=? 0)%Z; [reflexivity|].
  rewrite IH. apply perm_swap.
Qed.

Lemma sort_Permutation {A : Type} (cmp : A -> A -> JS.Num) (l : list A) :
  Permutation (JS.sort cmp l) l.
Proof.
  induction l as [|x l IH]; simpl; [reflexivity|].
  rewrite insert_Permutation. now constructor.
Qed.

Lemma dated_timestamp (r : EarthquakeRecord) :
  Spec.dated r -> exists x, Spec.timestamp r = Some x.
Proof.
  unfold Spec.dated, Spec.timestamp. destruct (newDate (Quake.time r)) as [d|].
  - intros _. now exists (JS.timeValue d).
  - congruence.
Qed.

Lemma SortCompare_byTimeDesc (a b : EarthquakeRecord) (x y : Z) :
  Spec.timestamp a = Some x -> Spec.timestamp b = Some y ->
  JS.SortCompare byTimeDesc a b = (y - x)%Z.
Proof.
  unfold JS.SortCompare, byTimeDesc, Spec.timestamp. now intros -> ->.
Qed.

Lemma notOlder_trans (a b c : EarthquakeRecord) :
  Spec.notOlder a b -> Spec.notOlder b c -> Spec.notOlder a c.
Proof.
  intros (x & y & Hx & Hy & L1) (y' & z & Hy' & Hz & L2).
  rewrite Hy in Hy'. injection Hy' as <-.
  exists x, z. repeat split; [assumption.. | lia].
Qed.

Lemma insert_sorted (x : EarthquakeRecord) (l : list EarthquakeRecord) :
  Spec.dated x -> Forall Spec.dated l ->
  StronglySorted Spec.notOlder l ->
  StronglySorted Spec.notOlder (JS.insert byTimeDesc x l).
Proof.
  intros Dx Dl Hs. induction Hs as [|y l Hs IH Hy]; simpl.
  - repeat constructor.
  - inversion Dl as [|? ? Dy Dl']; subst.
    destruct (dated_timestamp _ Dx) as [tx Tx].
    destruct (dated_timestamp _ Dy) as [ty Ty].
    rewrite (SortCompare_byTimeDesc _ _ _ _ Tx Ty).
    destruct (ty - tx <=? 0)%Z eqn:C.
    + apply Z.leb_le in C.
      assert (Hxy : Spec.notOlder x y).
      { exists tx, ty. repeat split; [assumption.. | lia]. }
      constructor; [now constructor|].
      constructor; [exact Hxy|].
      eapply Forall_impl; [|exact Hy].
      intros z Hz. now apply (notOlder_trans x y z).
    + apply Z.leb_gt in C.
      constructor; [now apply IH|].
      apply (Permutation_Forall
               (Permutation_sym (insert_Permutation byTimeDesc x l))).
      constructor; [|exact Hy].
      exists ty, tx. repeat split; [assumption.. | lia].
Qed.

Lemma sort_sorted (l : list EarthquakeRecord) :
  Forall Spec.dated l -> StronglySorted Spec.notOlder (JS.sort byTimeDesc l).
Proof.
  induction l as [|x l IH]; intros D; simpl; [constructor|].
  inversion D as [|? ? Dx Dl]; subst.
  apply insert_sorted; [assumption | | now apply IH].
  now apply (Permutation_Forall (Permutation_sym (sort_Permutation _ l))).
Qed.

Lemma affects_spec (P : string) (r : EarthquakeRecord) :
  Spec.affects P r = true <-> exists arr, Quake.pref r = Some arr /\ In P arr.
Proof.
  unfold Spec.affects. destruct (Quake.pref r) as [arr|].
  - split.
    + intros H. exists arr. split; [reflexivity | now apply includes_In].
    + intros (arr' & [= <-] & H). now apply includes_In.
  - split; [discriminate | now intros (arr & E & _)].
Qed.

End Selector.

Section SelectorClaims.
Context {host : Host}.

(** C2.  On records whose [time] parses to a valid Date, the candidate list
    holds exactly the records of the input whose prefecture array contains
    the chosen prefecture as one of its elements (each as often as the input
    has it), most recent first. *)
Theorem selectCandidates_exact_sorted (R : list EarthquakeRecord) (P : string) :
  Forall Spec.dated R ->
  exists l,
    selectCandidates R P = JS.Ok l
    /\ Permutation l (List.filter (Spec.affects P) R)
    /\ (forall r, In r l <->
                  In r R /\ exists arr, Quake.pref r = Some arr /\ In P arr)
    /\ StronglySorted Spec.notOlder l.
Proof.
  intros D. exists (JS.sort byTimeDesc (List.filter (Spec.affects P) R)).
  split; [apply selectCandidates_value|].
  split; [apply sort_Permutation|].
  split.
  - intros r. rewrite <- affects_spec, <- filter_In. split.
    + apply Permutation_in, sort_Permutation.
    + apply Permutation_in, Permutation_sym, sort_Permutation.
  - apply sort_sorted. rewrite Forall_forall in D |- *.
    intros r Hr. apply D. apply filter_In in Hr. tauto.
Qed.

Lemma defaultSelection_head (l : list EarthquakeRecord) :
  defaultSelection l = hd_error l.
Proof. now destruct l. Qed.

(** C5.  The selector never throws; the default selection is the first
    element of the candidate list, and null when the list is empty; an empty
    input, or one without a match, gives the empty list and a null
    selection; a fetch that succeeds stores both and leaves [error] as it
    was. *)
Theorem default_selection_first_or_null (R : list EarthquakeRecord)
  (P : string) (st : AppState) :
  exists l,
    selectCandidates R P = JS.Ok l
    /\ defaultSelection l = hd_error l
    /\ selectCandidates [] P = JS.Ok []
    /\ defaultSelection [] = None
    /\ (List.filter (Spec.affects P) R = [] ->
        l = [] /\ defaultSelection l = None)
    /\ earthquakes (finishFetch P (Response true (JS.Ok R)) st) = l
    /\ selectedEq (finishFetch P (Response true (JS.Ok R)) st) = hd_error l
    /\ error (finishFetch P (Response true (JS.Ok R)) st) = error st.
Proof.
  exists (JS.sort byTimeDesc (List.filter (Spec.affects P) R)).
  split; [apply selectCandidates_value|].
  split; [apply defaultSelection_head|].
  split; [reflexivity|]. split; [reflexivity|].
  split; [now intros ->|].
  unfold finishFetch, tryBlock. cbn [negb JS.bind].
  rewrite selectCandidates_value. cbn [earthquakes selectedEq error].
  split; [reflexivity|]. split; [apply defaultSelection_head | reflexivity].
Qed.

(** C10.  A record whose [pref] is missing or null is kept for no
    prefecture, and no exception is raised: the callback answers false
    without making the [includes] call, which on such a record would
    throw. *)
Theorem missing_pref_excluded (r : EarthquakeRecord) (P : string)
  (R : list EarthquakeRecord) :
  Quake.pref r = None ->
  prefTest P r = JS.Ok false
  /\ (exists m, JS.callIncludes (Quake.pref r) P = JS.Throw m)
  /\ exists l, selectCandidates R P = JS.Ok l /\ ~ In r l.
Proof.
  intros E. split; [unfold prefTest; now rewrite E|].
  split; [rewrite E; simpl; eauto|].
  eexists. split; [apply selectCandidates_value|].
  intros Hin. apply (Permutation_in _ (sort_Permutation _ _)) in Hin.
  apply filter_In in Hin as [_ A]. unfold Spec.affects in A.
  rewrite E in A. discriminate.
Qed.

End SelectorClaims.

(* ================================================================== *)
(** ** Field formatter: claims C3, C6 and C9 *)
(* ================================================================== *)

Lemma below_100 (P : Z -> Prop) :
  (forall k : nat, (k < 100)%nat -> P (Z.of_nat k)) ->
  forall n, (0 <= n < 100)%Z -> P n.
Proof.
  intros H n Hn. rewrite <- (Z2Nat.id n) by lia. apply H. lia.
Qed.

Lemma ToString_unpadded (n : Z) :
  (0 <= n < 100)%Z -> JS.ToString (Some n) = Spec.unpadded n.
Proof.
  revert n. apply below_100. intros k Hk.
  do 100 (destruct k as [|k]; [reflexivity|]). lia.
Qed.

Lemma padStart_twoDigits (n : Z) :
  (0 <= n < 100)%Z ->
  JS.padStart 2 "0" (JS.ToString (Some n)) = Spec.twoDigits n.
Proof.
  revert n. apply below_100. intros k Hk.
  do 100 (destruct k as [|k]; [reflexivity|]). lia.
Qed.

Lemma parseDecimal_ToString (z : Z) :
  Spec.parseDecimal (JS.ToString (Some z)) = Some z.
Proof.
  unfold Spec.parseDecimal, JS.ToString.
  rewrite NilZero.isi.
  - simpl. now rewrite DecimalZ.of_to.
  - intros E. pose proof (f_equal Z.of_int E) as E'.
    rewrite DecimalZ.of_to in E'. simpl in E'. subst z. discriminate E.
  - intros E. pose proof (f_equal Z.of_int E) as E'.
    rewrite DecimalZ.of_to in E'. simpl in E'. subst z. discriminate E.
Qed.

Section FormatterClaims.
Context {host : Host}.

(** C6.  For a record whose [time] parses to a valid Date, the time field
    is YEAR年MONTH月DAY日 HOUR:MINUTE: the year in decimal, the month
    counted from 1, the day, the hour of the 24-hour clock and the minute
    of the Date in local time, where month, day and hour are written
    without padding and the minute on two digits with a leading zero. *)
Theorem time_field_pattern (r : EarthquakeRecord) (P : string)
  (d : JS.LocalTime) :
  newDate (Quake.time r) = Some d ->
  (0 <= JS.Month d < 12)%Z ->
  (1 <= JS.DayOfMonth d <= 31)%Z ->
  (0 <= JS.Hours d < 24)%Z ->
  (0 <= JS.Minutes d < 60)%Z ->
  Data.time (formatFields r P)
  = JS.ToString (Some (JS.FullYear d)) ++ "年"
    ++ Spec.unpadded (JS.Month d + 1) ++ "月"
    ++ Spec.unpadded (JS.DayOfMonth d) ++ "日 "
    ++ Spec.unpadded (JS.Hours d) ++ ":"
    ++ Spec.twoDigits (JS.Minutes d)
  /\ Spec.parseDecimal (JS.ToString (Some (JS.FullYear d)))
     = Some (JS.FullYear d)
  /\ String.length (Spec.twoDigits (JS.Minutes d)) = 2%nat.
Proof.
  intros E Hm Hd Hh Hmi. split; [|split].
  - cbn [formatFields Data.time]. rewrite E. unfold formattedTime.
    cbn [JS.getFullYear JS.getMonth JS.getDate JS.getHours JS.getMinutes
         option_map JS.add].
    rewrite (ToString_unpadded (JS.Month d + 1)) by lia.
    rewrite (ToString_unpadded (JS.DayOfMonth d)) by lia.
    rewrite (ToString_unpadded (JS.Hours d)) by lia.
    rewrite padStart_twoDigits by lia. reflexivity.
  - apply parseDecimal_ToString.
  - reflexivity.
Qed.

(** C3 (as amended).  The magnitude field is the letter M followed by the
    printed magnitude when the record has a magnitude that is truthy
    (neither zero nor NaN), and the marker for an unknown magnitude, which
    is not the empty string, when the record has none. *)
Theorem magnitude_field (r : EarthquakeRecord) (P : string) :
  (forall m, Quake.mag r = Some m -> JS.NumberToBoolean m = true ->
             Data.magnitude (formatFields r P) = "M" ++ NumberToString m)
  /\ (Quake.mag r = None ->
      Data.magnitude (formatFields r P) = "M不明"
      /\ Data.magnitude (formatFields r P) <> "").
Proof.
  cbn [formatFields Data.magnitude]. split.
  - now intros m -> ->.
  - intros ->. split; [reflexivity | discriminate].
Qed.

(** C9.  A magnitude, epicenter name or maximum intensity that is there
    but falsy is formatted as the same field left out: the whole field map
    is that of the record without its falsy fields, and the three fields
    show their markers. *)
Theorem falsy_fields_as_absent (r : EarthquakeRecord) (P : string) :
  formatFields r P = formatFields (Spec.absentIfFalsy r) P
  /\ (Quake.name r = Some "" -> Data.epicenter (formatFields r P) = "不明")
  /\ (forall q, Quake.mag r = Some (JS.Finite q) -> (q == 0)%Q ->
                Data.magnitude (formatFields r P) = "M不明")
  /\ (Quake.maxInt r = Some "" -> Data.maxIntensity (formatFields r P) = "不明").
Proof.
  split; [|split; [|split]].
  - unfold formatFields, Spec.absentIfFalsy.
    cbn [Quake.time Quake.name Quake.mag Quake.maxInt].
    f_equal.
    + destruct (Quake.name r) as [n|]; [|reflexivity].
      destruct (JS.StringToBoolean n) eqn:T; [now rewrite T | reflexivity].
    + destruct (Quake.mag r) as [m|]; [|reflexivity].
      destruct (JS.NumberToBoolean m) eqn:T; [now rewrite T | reflexivity].
    + destruct (Quake.maxInt r) as [i|]; [|reflexivity].
      destruct (JS.StringToBoolean i) eqn:T; [now rewrite T | reflexivity].
  - cbn [formatFields Data.epicenter]. now intros ->.
  - cbn [formatFields Data.magnitude]. intros q -> Hq.
    unfold Qeq in Hq. simpl in Hq.
    assert (Qnum q = 0)%Z as E by lia.
    cbn [JS.NumberToBoolean]. now rewrite E.
  - cbn [formatFields Data.maxIntensity]. now intros ->.
Qed.

End FormatterClaims.

(** A [time] that does not parse gives no timestamp to render: every getter
    of the Invalid Date returns NaN. *)
Example formattedTime_invalid : formattedTime None = "NaN年NaN月NaN日 NaN:NaN".
Proof. reflexivity. Qed.

Lemma time_field_pattern_witness :
  Data.time (@formatFields Sample.host Sample.quakeOlder "北海道")
  = "2025年3月14日 9:05".
Proof.
  refine (eq_trans
            (proj1 (@time_field_pattern Sample.host Sample.quakeOlder "北海道"
                      (JS.mkLocalTime 1741910700000 2025 2 14 9 5)
                      _ _ _ _ _)) _);
    [reflexivity | simpl; lia .. | reflexivity].
Defined.

(** C3 as the specification words it fails on a magnitude of zero, which is
    there and yet shown as unknown. *)
Lemma magnitude_zero_shown_unknown :
  Quake.mag Sample.quakeOlder = Some (JS.Finite 0)
  /\ Data.magnitude (@formatFields Sample.host Sample.quakeOlder "北海道")
     = "M不明"
  /\ "M" ++ @NumberToString Sample.host (JS.Finite 0) = "M0"
  /\ ~ (forall (h : Host) r P m,
          Quake.mag r = Some m ->
          Data.magnitude (@formatFields h r P) = "M" ++ @NumberToString h m).
Proof.
  repeat split; try reflexivity.
  intros H.
  specialize (H Sample.host Sample.quakeOlder "北海道" _ eq_refl).
  discriminate H.
Qed.

Lemma magnitude_field_witness :
  Quake.mag Sample.quakeHokkaido = Some (JS.Finite (61 # 10))
  /\ JS.NumberToBoolean (JS.Finite (61 # 10)) = true
  /\ Data.magnitude (@formatFields Sample.host Sample.quakeHokkaido "北海道")
     = "M" ++ "6.1"
  /\ Quake.mag Sample.quakeOkinawa = None
  /\ Data.magnitude (@formatFields Sample.host Sample.quakeOkinawa "沖縄")
     = "M不明".
Proof.
  split; [reflexivity|]. split; [reflexivity|].
  split.
  - exact (proj1 (@magnitude_field Sample.host Sample.quakeHokkaido "北海道")
             (JS.Finite (61 # 10)) eq_refl eq_refl).
  - split; [reflexivity|].
    exact (proj1 (proj2 (@magnitude_field Sample.host Sample.quakeOkinawa
                           "沖縄") eq_refl)).
Defined.

Lemma falsy_fields_as_absent_witness :
  Quake.name Sample.quakeOlder = Some ""
  /\ Quake.mag Sample.quakeOlder = Some (JS.Finite 0)
  /\ Quake.maxInt Sample.quakeOlder = Some ""
  /\ Data.epicenter (@formatFields Sample.host Sample.quakeOlder "北海道")
     = "不明"
  /\ Data.magnitude (@formatFields Sample.host Sample.quakeOlder "北海道")
     = "M不明"
  /\ Data.maxIntensity (@formatFields Sample.host Sample.quakeOlder "北海道")
     = "不明".
Proof.
  do 3 (split; [reflexivity|]).
  destruct (@falsy_fields_as_absent Sample.host Sample.quakeOlder "北海道")
    as (_ & N & M & I).
  split; [exact (N eq_refl)|].
  split; [exact (M 0%Q eq_refl (Qeq_refl 0)) | exact (I eq_refl)].
Defined.

(* ================================================================== *)
(** ** Application shell: claims C4 and C8 *)
(* ================================================================== *)

Section ShellClaims.
Context {host : Host}.

Lemma reachable_after_effect (st : AppState) :
  reachable st -> exists st0, st = runFillEffect st0.
Proof.
  intros [|e st1 st' _ Hstep]; [unfold mounted; eauto|].
  destruct e as [p|i outcome|value|t]; cbn [step] in Hstep.
  - destruct (_ && _); [injection Hstep as <-; eauto | discriminate].
  - destruct (nth_error _ _); [injection Hstep as <-; eauto | discriminate].
  - destruct (_ && _); [injection Hstep as <-; eauto | discriminate].
  - destruct (panelShown _); [injection Hstep as <-; eauto | discriminate].
Qed.

(** C4.  In a reachable state without a selection the rendered output is
    the fixed text for no matching earthquake, and the effect that produced
    it made no call of [fillTemplate], whatever the template and the
    prefecture. *)
Theorem no_selection_sentinel (st : AppState) :
  reachable st -> selectedEq st = None ->
  filled st = noMatch
  /\ forall t p, fillEffect (selectedEq st) t p = ([], noMatch).
Proof.
  intros R E. split.
  - destruct (reachable_after_effect st R) as [st0 ->].
    cbn [runFillEffect selectedEq filled] in *. now rewrite E.
  - intros t p. now rewrite E.
Qed.

Lemma candidates_affect (data : list EarthquakeRecord) (Q : string)
  (l : list EarthquakeRecord) (r : EarthquakeRecord) :
  selectCandidates data Q = JS.Ok l -> In r l -> Spec.affects Q r = true.
Proof.
  rewrite selectCandidates_value. intros [= <-] Hin.
  apply (Permutation_in _ (sort_Permutation _ _)) in Hin.
  now apply filter_In in Hin.
Qed.

Lemma defaultSelection_In (l : list EarthquakeRecord) (r : EarthquakeRecord) :
  defaultSelection l = Some r -> In r l.
Proof. destruct l; [discriminate | intros [= ->]; now left]. Qed.

Lemma tryBlock_ok (pref : string) (outcome : FetchOutcome)
  (filtered : list EarthquakeRecord) :
  tryBlock pref outcome = JS.Ok filtered ->
  exists data, outcome = Response true (JS.Ok data)
               /\ selectCandidates data pref = JS.Ok filtered.
Proof.
  destruct outcome as [m|ok [data|m]]; [discriminate|..];
    destruct ok; simpl; try discriminate.
  intros H. now exists data.
Qed.

Lemma step_selectionInList (e : Event) (st st' : AppState) :
  selectionInList st -> step e st = Some st' -> selectionInList st'.
Proof.
  intros (data & Q & Hl & Hs) Hstep.
  destruct e as [p|i outcome|value|t]; cbn [step] in Hstep.
  - destruct (_ && _); [injection Hstep as <-|discriminate].
    now exists data, Q.
  - destruct (nth_error _ _) as [pref|]; [injection Hstep as <-|discriminate].
    unfold finishFetch. destruct (tryBlock pref outcome) as [filtered|m] eqn:T.
    + destruct (tryBlock_ok _ _ _ T) as (data' & _ & Hc).
      exists data', pref. cbn. split; [exact Hc|].
      intros r Hr. apply defaultSelection_In in Hr. split; [exact Hr|].
      now apply (candidates_affect data' pref filtered).
    + now exists data, Q.
  - destruct (_ && _); [injection Hstep as <-|discriminate].
    exists data, Q. cbn. split; [exact Hl|].
    intros r Hr. apply List.find_some in Hr as [Hin _].
    split; [exact Hin|]. now apply (candidates_affect data Q (earthquakes st)).
  - destruct (panelShown _); [injection Hstep as <-|discriminate].
    now exists data, Q.
Qed.

Lemma reachableInTurn_reachable (st : AppState) :
  reachableInTurn st -> reachable st.
Proof.
  induction 1 as [|e st st' _ IH _ Hstep]; [apply reach_mounted|].
  now apply (reach_step e st).
Qed.

(** With one fetch at a time, either nothing is on its way and, unless an
    error is shown, the list is current; or the one fetch on its way is
    the one for the selected prefecture. *)
Lemma in_turn_invariant (st : AppState) :
  reachableInTurn st ->
  (inflight st = [] /\ (error st = None -> listIsCurrent st))
  \/ inflight st = [selectedPref st].
Proof.
  induction 1 as [|e st st' _ IH Hturn Hstep]; [now right|].
  destruct e as [p|i outcome|value|t]; cbn [step] in Hstep.
  - destruct (_ && _); [injection Hstep as <-|discriminate].
    right. cbn. now rewrite (Hturn p eq_refl).
  - destruct IH as [[E _]|E]; rewrite E in Hstep.
    + destruct i; discriminate.
    + destruct i as [|i]; [|destruct i; discriminate].
      injection Hstep as <-. left. unfold finishFetch.
      destruct (tryBlock (selectedPref st) outcome) as [filtered|m] eqn:T.
      * destruct (tryBlock_ok _ _ _ T) as (data & _ & Hc).
        cbn. split; [reflexivity|]. intros _. exists data. cbn.
        split; [exact Hc|]. intros r. apply defaultSelection_In.
      * cbn. split; [reflexivity | discriminate].
  - destruct (_ && _); [injection Hstep as <-|discriminate].
    destruct IH as [[E C]|E]; [left | now right].
    cbn. split; [exact E|]. intros Herr.
    destruct (C Herr) as (data & Hc & _). exists data. cbn.
    split; [exact Hc|]. intros r Hr. now apply List.find_some in Hr.
  - destruct (panelShown _); [injection Hstep as <-|discriminate].
    destruct IH as [[E C]|E]; [left | now right].
    cbn. split; [exact E|]. intros Herr.
    destruct (C Herr) as (data & Hc & Hs). now exists data.
Qed.

(** C8 (as amended).  In every reachable state the stored list is the
    candidate list of some prefecture Q, and the selection, if there is
    one, is a record of that list, hence a record that names Q.  In a state
    reached with one fetch at a time, with no fetch on its way and no error
    set, Q is the prefecture now selected.  A fetch that succeeds sets list
    and selection together, to the candidates of the prefecture it was
    started for and the first of them; a prefecture change starts a fetch
    and leaves list and selection as they are. *)
Theorem selection_member_of_list (st : AppState) :
  reachable st ->
  selectionInList st
  /\ (reachableInTurn st -> inflight st = [] -> error st = None ->
      listIsCurrent st)
  /\ (forall i Q data st',
        nth_error (inflight st) i = Some Q ->
        step (Settle i (Response true (JS.Ok data))) st = Some st' ->
        selectCandidates data Q = JS.Ok (earthquakes st')
        /\ selectedEq st' = hd_error (earthquakes st'))
  /\ (forall p st',
        step (ChangePref p) st = Some st' ->
        selectedPref st' = p
        /\ earthquakes st' = earthquakes st
        /\ selectedEq st' = selectedEq st
        /\ inflight st' = (inflight st ++ [p])%list).
Proof.
  intros R. split; [|split; [|split]].
  - induction R as [|e st st' _ IH Hstep].
    + exists [], "". split; [reflexivity | discriminate].
    + now apply (step_selectionInList e st).
  - intros T E Herr. destruct (in_turn_invariant st T) as [[_ C]|E'].
    + now apply C.
    + rewrite E in E'. discriminate.
  - intros i Q data st' Hi Hstep. cbn [step] in Hstep. rewrite Hi in Hstep.
    injection Hstep as <-. unfold finishFetch, tryBlock. cbn [negb JS.bind].
    rewrite selectCandidates_value. cbn.
    split; [reflexivity | apply defaultSelection_head].
  - intros p st' Hstep. cbn [step] in Hstep.
    destruct (_ && _); [injection Hstep as <-|discriminate].
    cbn. repeat split.
Qed.

Lemma run_reachable (es : list Event) (st st' : AppState) :
  reachable st -> run es st = Some st' -> reachable st'.
Proof.
  revert st. induction es as [|e es IH]; intros st R H; simpl in H.
  - now injection H as <-.
  - destruct (step e st) as [st1|] eqn:E; [|discriminate].
    apply (IH st1); [|exact H]. now apply (reach_step e st).
Qed.

End ShellClaims.

Lemma selectCandidates_exact_sorted_witness :
  Forall (@Spec.dated Sample.host) Sample.feed
  /\ exists l,
       @selectCandidates Sample.host Sample.feed "北海道" = JS.Ok l
       /\ Permutation l (List.filter (Spec.affects "北海道") Sample.feed)
       /\ (forall r, In r l <->
                     In r Sample.feed
                     /\ exists arr, Quake.pref r = Some arr /\ In "北海道" arr)
       /\ StronglySorted (@Spec.notOlder Sample.host) l.
Proof.
  assert (D : Forall (@Spec.dated Sample.host) Sample.feed)
    by (repeat constructor; discriminate).
  split; [exact D|].
  exact (@selectCandidates_exact_sorted Sample.host Sample.feed "北海道" D).
Defined.

Lemma default_selection_first_or_null_witness :
  List.filter (Spec.affects "東京") Sample.feed = []
  /\ exists l,
       @selectCandidates Sample.host Sample.feed "東京" = JS.Ok l
       /\ l = [] /\ @defaultSelection l = None.
Proof.
  split; [reflexivity|].
  destruct (@default_selection_first_or_null Sample.host Sample.feed "東京"
              (@mounted Sample.host)) as (l & Hl & _ & _ & _ & He & _).
  exists l. split; [exact Hl | exact (He eq_refl)].
Defined.

Example selectCandidates_example :
  @selectCandidates Sample.host Sample.feed "北海道"
  = JS.Ok [Sample.quakeHokkaido; Sample.quakeOlder].
Proof. reflexivity. Qed.

Lemma missing_pref_excluded_witness :
  Quake.pref Sample.quakeNoPref = None
  /\ @prefTest "北海道" Sample.quakeNoPref = JS.Ok false
  /\ (exists m,
        JS.callIncludes (Quake.pref Sample.quakeNoPref) "北海道" = JS.Throw m)
  /\ exists l, @selectCandidates Sample.host Sample.feed "北海道" = JS.Ok l
               /\ ~ In Sample.quakeNoPref l.
Proof.
  split; [reflexivity|].
  exact (@missing_pref_excluded Sample.host Sample.quakeNoPref "北海道"
           Sample.feed eq_refl).
Defined.

Lemma after_reachable (es : list Event) :
  @reachable Sample.host (Sample.after es).
Proof.
  unfold Sample.after.
  destruct (@run Sample.host es (@mounted Sample.host)) as [st|] eqn:E.
  - apply (@run_reachable Sample.host es (@mounted Sample.host));
      [apply reach_mounted | exact E].
  - apply reach_mounted.
Qed.

Lemma no_selection_sentinel_witness :
  @reachable Sample.host Sample.okinawaEmpty
  /\ selectedEq Sample.okinawaEmpty = None
  /\ filled Sample.okinawaEmpty = noMatch
  /\ forall t p,
       @fillEffect Sample.host (selectedEq Sample.okinawaEmpty) t p
       = ([], noMatch).
Proof.
  split; [exact (after_reachable _) |]. split; [reflexivity|].
  exact (@no_selection_sentinel Sample.host Sample.okinawaEmpty
           (after_reachable _) eq_refl).
Defined.

Lemma okinawaLoaded_in_turn : @reachableInTurn Sample.host Sample.okinawaLoaded.
Proof.
  eapply (@turn_step Sample.host
            (Settle 0 (Response true (JS.Ok Sample.feed)))
            Sample.okinawaLoading).
  - eapply (@turn_step Sample.host (ChangePref "沖縄")
              (Sample.after [Settle 0 (Response true (JS.Ok Sample.feed))])).
    + eapply (@turn_step Sample.host
                (Settle 0 (Response true (JS.Ok Sample.feed)))
                (@mounted Sample.host)).
      * apply turn_mounted.
      * discriminate.
      * vm_compute. reflexivity.
    + intros _ _. vm_compute. reflexivity.
    + vm_compute. reflexivity.
  - discriminate.
  - vm_compute. reflexivity.
Qed.

(** C8 as the specification words it fails.  After a prefecture change the
    selection is still the record picked for the prefecture before, which
    does not name the one now selected: it belongs to no candidate list of
    the selected prefecture. *)
Lemma selection_from_other_prefecture :
  @run Sample.host
    [ Settle 0 (Response true (JS.Ok Sample.feed)); ChangePref "沖縄" ]
    (@mounted Sample.host) = Some Sample.okinawaLoading
  /\ @reachable Sample.host Sample.okinawaLoading
  /\ selectedPref Sample.okinawaLoading = "沖縄"
  /\ selectedEq Sample.okinawaLoading = Some Sample.quakeHokkaido
  /\ Spec.affects "沖縄" Sample.quakeHokkaido = false
  /\ ~ (forall (h : Host) st, @reachable h st ->
          forall r, selectedEq st = Some r ->
          exists data l,
            @selectCandidates h data (selectedPref st) = JS.Ok l /\ In r l).
Proof.
  split; [reflexivity|].
  split; [exact (after_reachable _)|].
  do 3 (split; [reflexivity|]).
  intros H.
  destruct (H Sample.host Sample.okinawaLoading (after_reachable _)
              Sample.quakeHokkaido eq_refl) as (data & l & Hc & Hin).
  apply (@candidates_affect Sample.host data _ l _ Hc) in Hin.
  discriminate Hin.
Qed.

(** It stays so when the fetch for the new prefecture fails. *)
Example selection_kept_after_failure :
  selectedPref Sample.okinawaFailed = "沖縄"
  /\ selectedEq Sample.okinawaFailed = Some Sample.quakeHokkaido
  /\ error Sample.okinawaFailed = Some "Failed to fetch"
  /\ inflight Sample.okinawaFailed = [].
Proof. repeat split. Qed.

(** Two fetches that answer out of order leave the page, with nothing
    loading, no error and no fetch on its way, on Okinawa with an earthquake
    of Hokkaido selected. *)
Example selection_after_late_answer :
  selectedPref Sample.outOfOrder = "沖縄"
  /\ selectedEq Sample.outOfOrder = Some Sample.quakeHokkaido
  /\ loading Sample.outOfOrder = false
  /\ error Sample.outOfOrder = None
  /\ inflight Sample.outOfOrder = [].
Proof. repeat split. Qed.

Lemma selection_member_of_list_witness :
  @reachable Sample.host Sample.okinawaLoaded
  /\ @reachableInTurn Sample.host Sample.okinawaLoaded
  /\ inflight Sample.okinawaLoaded = []
  /\ error Sample.okinawaLoaded = None
  /\ selectedEq Sample.okinawaLoaded = Some Sample.quakeOkinawa
  /\ @selectionInList Sample.host Sample.okinawaLoaded
  /\ @listIsCurrent Sample.host Sample.okinawaLoaded.
Proof.
  split; [exact (after_reachable _)|].
  split; [exact okinawaLoaded_in_turn|].
  do 3 (split; [reflexivity|]).
  destruct (@selection_member_of_list Sample.host Sample.okinawaLoaded
              (after_reachable _)) as (A & B & _).
  split; [exact A|].
  exact (B okinawaLoaded_in_turn eq_refl eq_refl).
Defined.

(* ================================================================== *)
(** ** Template engine: what the output holds *)
(* ================================================================== *)

Lemma lookupPrefix_none (table : list (string * string)) (s : string) :
  Spec.lookupPrefix table s = None ->
  forall p, In p table -> prefix (fst p) s = false.
Proof.
  induction table as [|[t v] tb IH]; simpl; [tauto|].
  destruct (prefix t s) eqn:P; [discriminate|].
  intros H p [<-|Hin]; [exact P | now apply IH].
Qed.

Section NoTokenLeft.

(** A token [tok = opening :: body] of a table whose tokens all start with
    [opening] and whose values cannot take part in a match of [tok]. *)
Variable table : list (string * string).
Variable opening : ascii.
Variables tok body : string.

Hypothesis tok_shape : tok = String opening body.
Hypothesis tok_listed : exists v, In (tok, v) table.
Hypothesis table_tokens :
  Forall (fun p => exists b, fst p = String opening b) table.
Hypothesis table_values :
  Forall (fun p => exists c v', snd p = String c v'
                     /\ Spec.mem c tok = false
                     /\ Spec.mem opening (snd p) = false) table.

Lemma occursIn_through (v y : string) :
  Spec.mem opening v = false ->
  Spec.occursIn tok (v ++ y) = Spec.occursIn tok y.
Proof.
  induction v as [|c v IH]; intros H; [reflexivity|].
  rewrite mem_cons in H. apply orb_false_elim in H as [Hc Hv].
  change (String c v ++ y) with (String c (v ++ y)).
  rewrite occursIn_unfold, IH by exact Hv.
  rewrite tok_shape at 1. rewrite prefix_head_neq; [reflexivity|].
  intros ->. now rewrite Ascii.eqb_refl in Hc.
Qed.

Lemma substFrom_no_token_bounded (n : nat) :
  forall s, (String.length s <= n)%nat ->
  Spec.occursIn tok (Spec.substFrom table 0 s) = false.
Proof.
  induction n as [|n IH]; intros s Hlen.
  { destruct s; [now rewrite tok_shape | simpl in Hlen; lia]. }
  destruct s as [|c s]; [now rewrite tok_shape|].
  destruct (Spec.lookupPrefix table (String c s)) as [[t v]|] eqn:L.
  - destruct (lookupPrefix_some _ _ _ _ L) as [Hin P].
    pose proof table_tokens as Ht. rewrite Forall_forall in Ht.
    destruct (Ht _ Hin) as [b Hb]. simpl in Hb.
    assert (ne : t <> "") by congruence.
    pose proof table_values as Hv. rewrite Forall_forall in Hv.
    destruct (Hv _ Hin) as (_ & _ & _ & _ & Hopen). simpl in Hopen.
    rewrite (substFrom_match _ _ _ _ L ne), occursIn_through by exact Hopen.
    apply IH.
    apply prefix_split in P. apply (f_equal String.length) in P.
    rewrite length_append in P. subst t. simpl in P, Hlen |- *. lia.
  - rewrite (substFrom_copy _ _ _ L), occursIn_unfold.
    rewrite IH by (simpl in Hlen; lia). rewrite orb_false_r.
    destruct (prefix tok (String c (Spec.substFrom table 0 s))) eqn:Q;
      [exfalso | reflexivity].
    destruct tok_listed as [v Hin].
    pose proof (lookupPrefix_none _ _ L _ Hin) as N. cbn [fst] in N.
    rewrite tok_shape, prefix_cons in Q, N.
    apply andb_prop in Q as [Qc Qb]. rewrite Qc in N. simpl in N.
    rewrite (prefix_of_output table opening tok table_tokens table_values
               body s) in N; [discriminate| |exact Qb].
    intros c' Hc'. rewrite tok_shape, mem_cons, Hc'. apply orb_true_r.
Qed.

End NoTokenLeft.

Ltac inert_side :=
  repeat match goal with
    | |- Forall _ [] => constructor
    | |- Forall _ (_ :: _) => constructor
    | |- exists b, fst (String _ ?body, _) = String _ b =>
        exists body; reflexivity
    | |- exists c v', snd (_, ?v) = String c v' /\ _ =>
        simpl snd; apply inert_elim; [assumption | token_in]
    | |- exists v, In (?t, v) _ =>
        eexists; simpl; repeat (first [left; reflexivity | right])
    end.

Lemma inertFields_elim (F : Data.FieldMap) :
  inertFields F = true ->
  (Spec.inert (Data.time F) = true /\ Spec.literal (Data.time F) = true)
  /\ (Spec.inert (Data.epicenter F) = true
      /\ Spec.literal (Data.epicenter F) = true)
  /\ (Spec.inert (Data.magnitude F) = true
      /\ Spec.literal (Data.magnitude F) = true)
  /\ (Spec.inert (Data.maxIntensity F) = true
      /\ Spec.literal (Data.maxIntensity F) = true)
  /\ (Spec.inert (Data.prefecture F) = true
      /\ Spec.literal (Data.prefecture F) = true).
Proof.
  unfold inertFields. cbn [forallb]. rewrite !andb_true_iff. tauto.
Qed.

(** The chain of passes as one pass, from the conditions on each value. *)
Lemma chain_one_pass (T : string) (F : Data.FieldMap) :
  Spec.literal (Data.time F) = true ->
  Spec.literal (Data.epicenter F) = true ->
  Spec.literal (Data.magnitude F) = true ->
  Spec.literal (Data.maxIntensity F) = true ->
  Spec.literal (Data.prefecture F) = true ->
  Spec.inert (Data.time F) = true ->
  Spec.inert (Data.epicenter F) = true ->
  Spec.inert (Data.magnitude F) = true ->
  Spec.inert (Data.maxIntensity F) = true ->
  fillTemplate T F = Spec.substFrom (Spec.tokenTable F) 0 T.
Proof.
  intros. unfold fillTemplate, Spec.tokenTable.
  rewrite <- (substFrom_empty_table T) at 1.
  rewrite (add_pass [] "{" "{time}" "time}"); [cbn [app] | pass_side..].
  rewrite (add_pass _ "{" "{epicenter}" "epicenter}");
    [cbn [app] | pass_side..].
  rewrite (add_pass _ "{" "{magnitude}" "magnitude}");
    [cbn [app] | pass_side..].
  rewrite (add_pass _ "{" "{maxIntensity}" "maxIntensity}");
    [cbn [app] | pass_side..].
  rewrite (add_pass _ "{" "{prefecture}" "prefecture}");
    [cbn [app] | pass_side..].
  reflexivity.
Qed.

Lemma output_token_free (T : string) (F : Data.FieldMap) (tok : string) :
  inertFields F = true -> In tok Spec.tokens ->
  Spec.occursIn tok (fillTemplate T F) = false.
Proof.
  intros H Hin. apply inertFields_elim in H.
  destruct H as ((? & ?) & (? & ?) & (? & ?) & (? & ?) & (? & ?)).
  rewrite chain_one_pass by assumption.
  unfold Spec.tokens in Hin. simpl in Hin.
  destruct Hin as [<-|[<-|[<-|[<-|[<-|[]]]]]];
    eapply (substFrom_no_token_bounded _ "{" _ _ eq_refl);
    unfold Spec.tokenTable;
    first [ apply Nat.le_refl | solve [inert_side] ].
Qed.

(** X1.  When every value is inert and holds no dollar sign, none of the
    five tokens is left anywhere in the output of [fillTemplate]. *)
Theorem fillTemplate_leaves_no_token (T : string) (F : Data.FieldMap) :
  inertFields F = true ->
  forall tok, In tok Spec.tokens ->
  ~ exists a b, fillTemplate T F = a ++ tok ++ b.
Proof.
  intros H tok Hin Hex. apply occursIn_spec in Hex.
  now rewrite (output_token_free T F tok H Hin) in Hex.
Qed.

Lemma fillTemplate_leaves_no_token_witness :
  inertFields Sample.fields = true
  /\ forall tok, In tok Spec.tokens ->
     ~ exists a b,
         fillTemplate "{time}{epi{magnitude}center}" Sample.fields
         = a ++ tok ++ b.
Proof.
  split; [reflexivity|].
  exact (fillTemplate_leaves_no_token _ Sample.fields eq_refl).
Defined.

(** X2.  On such a field map filling is idempotent: filling the output
    again changes nothing. *)
Theorem fillTemplate_idempotent (T : string) (F : Data.FieldMap) :
  inertFields F = true ->
  fillTemplate (fillTemplate T F) F = fillTemplate T F.
Proof.
  intros H.
  assert (A : forall tok, In tok Spec.tokens ->
                Spec.occursIn tok (fillTemplate T F) = false)
    by (intros tok; apply output_token_free; exact H).
  set (out := fillTemplate T F) in *.
  unfold fillTemplate at 1. unfold JS.replaceAll.
  rewrite (replaceFrom_absent "{time}") by (apply A; token_in).
  rewrite (replaceFrom_absent "{epicenter}") by (apply A; token_in).
  rewrite (replaceFrom_absent "{magnitude}") by (apply A; token_in).
  rewrite (replaceFrom_absent "{maxIntensity}") by (apply A; token_in).
  rewrite (replaceFrom_absent "{prefecture}") by (apply A; token_in).
  reflexivity.
Qed.

Lemma fillTemplate_idempotent_witness :
  inertFields Sample.fields = true
  /\ fillTemplate (fillTemplate defaultTemplate Sample.fields) Sample.fields
     = fillTemplate defaultTemplate Sample.fields.
Proof.
  split; [reflexivity|].
  exact (fillTemplate_idempotent defaultTemplate Sample.fields eq_refl).
Defined.

(* ================================================================== *)
(** ** The fields the formatter builds *)
(* ================================================================== *)

Lemma mem_append (c : ascii) (a b : string) :
  Spec.mem c (a ++ b) = Spec.mem c a || Spec.mem c b.
Proof.
  induction a as [|x a IH]; simpl; [reflexivity|].
  now rewrite IH, orb_assoc.
Qed.

Lemma digits_only (c : ascii) (d : Decimal.uint) :
  Spec.mem c (NilEmpty.string_of_uint d) = true ->
  Spec.mem c "0123456789" = true.
Proof.
  induction d; simpl NilEmpty.string_of_uint; rewrite ?mem_cons;
    intros H; try discriminate;
    (apply orb_prop in H as [H|H]; [|now apply IHd]);
    apply Ascii.eqb_eq in H; subst c; reflexivity.
Qed.

Lemma digits_only_nz (c : ascii) (d : Decimal.uint) :
  Spec.mem c (NilZero.string_of_uint d) = true ->
  Spec.mem c "0123456789" = true.
Proof.
  destruct d; try apply (digits_only c).
  cbn [NilZero.string_of_uint]. rewrite mem_cons. intros H.
  apply orb_prop in H as [H|H]; [|discriminate].
  apply Ascii.eqb_eq in H. now subst c.
Qed.

(** What [ToString] prints: digits, a minus sign, or NaN. *)
Lemma ToString_chars (c : ascii) (n : JS.Num) :
  Spec.mem c (JS.ToString n) = true -> Spec.mem c "-0123456789Na" = true.
Proof.
  assert (D : Spec.mem c "0123456789" = true ->
              Spec.mem c "-0123456789Na" = true).
  { intros H. change "-0123456789Na" with ("-" ++ "0123456789" ++ "Na").
    rewrite !mem_append, H. now rewrite orb_true_r. }
  destruct n as [z|]; cbn [JS.ToString].
  - destruct (Z.to_int z) as [d|d]; cbn [NilZero.string_of_int].
    + intros H. now apply D, (digits_only_nz c d).
    + rewrite mem_cons. intros H. apply orb_prop in H as [H|H].
      * apply Ascii.eqb_eq in H. now subst c.
      * now apply D, (digits_only_nz c d).
  - rewrite !mem_cons. intros H.
    repeat (apply orb_prop in H as [H|H];
            [apply Ascii.eqb_eq in H; now subst c|]).
    discriminate.
Qed.

Lemma ToString_head (n : JS.Num) :
  exists c rest, JS.ToString n = String c rest
                 /\ Spec.mem c "-0123456789N" = true.
Proof.
  destruct n as [z|]; [|simpl; eauto]. cbn [JS.ToString].
  destruct (Z.to_int z) as [d|d]; cbn [NilZero.string_of_int]; [|eauto].
  destruct d; simpl; eauto.
Qed.

Lemma filler_chars (c : ascii) (k : nat) (pad cur : string) :
  Spec.mem c (JS.filler k pad cur) = true ->
  Spec.mem c pad = true \/ Spec.mem c cur = true.
Proof.
  revert cur. induction k as [|k IH]; intros cur; simpl; [discriminate|].
  destruct cur as [|x cur].
  - destruct pad as [|y pad'] eqn:E; [discriminate|].
    rewrite mem_cons. intros H. apply orb_prop in H as [H|H].
    + left. now rewrite mem_cons, H.
    + destruct (IH _ H) as [G|G]; [now left|].
      left. rewrite mem_cons, G. apply orb_true_r.
  - rewrite mem_cons. intros H. apply orb_prop in H as [H|H].
    + right. now rewrite mem_cons, H.
    + destruct (IH _ H) as [G|G]; [now left|].
      right. rewrite mem_cons, G. apply orb_true_r.
Qed.

Lemma padStart_chars (c : ascii) (n : nat) (pad s : string) :
  Spec.mem c (JS.padStart n pad s) = true ->
  Spec.mem c pad = true \/ Spec.mem c s = true.
Proof.
  unfold JS.padStart. destruct (n <=? String.length s)%nat; [now right|].
  rewrite mem_append. intros H. apply orb_prop in H as [H|H]; [|now right].
  destruct (filler_chars _ _ _ _ H); now left.
Qed.

(** A character outside digits, minus, N, a and the separators does not
    occur in a formatted time. *)
Lemma formattedTime_chars (c : ascii) (date : JS.Date) :
  Spec.mem c "-0123456789Na" = false ->
  Spec.mem c "年月日 :" = false ->
  Spec.mem c (formattedTime date) = false.
Proof.
  intros Hd Hs. unfold formattedTime.
  assert (T : forall n, Spec.mem c (JS.ToString n) = false).
  { intros n. destruct (Spec.mem c (JS.ToString n)) eqn:M; [|reflexivity].
    apply ToString_chars in M. congruence. }
  assert (P : Spec.mem c (JS.padStart 2 "0"
                            (JS.ToString (JS.getMinutes date))) = false).
  { destruct (Spec.mem c (JS.padStart 2 "0" _)) eqn:M; [|reflexivity].
    apply padStart_chars in M as [M|M].
    - change "-0123456789Na" with ("-" ++ "0" ++ "123456789Na") in Hd.
      rewrite !mem_append, M in Hd. now rewrite orb_true_r in Hd.
    - now rewrite T in M. }
  change "年月日 :" with ("年" ++ "月" ++ "日 " ++ ":") in Hs.
  rewrite !mem_append in Hs.
  apply orb_false_elim in Hs as [S1 Hs].
  apply orb_false_elim in Hs as [S2 Hs].
  apply orb_false_elim in Hs as [S3 S4].
  rewrite !mem_append, !T, P, S1, S2, S3, S4. reflexivity.
Qed.

Lemma formattedTime_plain (date : JS.Date) :
  Spec.inert (formattedTime date) = true
  /\ Spec.literal (formattedTime date) = true.
Proof.
  split.
  - pose proof (formattedTime_chars "{" date eq_refl eq_refl) as B.
    unfold formattedTime in *.
    destruct (ToString_head (JS.getFullYear date)) as (c & rest & E & C).
    rewrite E in *. change (String c rest ++ ?y) with (String c (rest ++ y)) in *.
    unfold Spec.inert. rewrite B. rewrite andb_true_r.
    apply negb_true_iff.
    revert C. simpl. rewrite !orb_false_r. intros C.
    repeat (apply orb_prop in C as [C|C];
            [apply Ascii.eqb_eq in C; subst c; reflexivity|]).
    apply Ascii.eqb_eq in C. subst c. reflexivity.
  - unfold Spec.literal. now rewrite formattedTime_chars.
Qed.

Lemma PREFECTURES_literal (P : string) :
  In P PREFECTURES -> Spec.literal P = true.
Proof.
  assert (A : forallb Spec.literal PREFECTURES = true) by reflexivity.
  rewrite forallb_forall in A. exact (A P).
Qed.

Section FormattedFields.
Context {host : Host}.

Lemma marker_plain :
  Spec.inert "不明" = true /\ Spec.literal "不明" = true
  /\ Spec.inert "M不明" = true /\ Spec.literal "M不明" = true.
Proof. repeat split. Qed.

(** X3.  For the field map the second effect builds, the chained passes
    are the literal one-pass substitution as soon as the strings that come
    from outside are harmless: the prefecture is one of the list, a truthy
    epicenter name and a truthy maximum intensity are inert and hold no
    dollar sign, and the printed magnitude holds no dollar sign and no
    opening brace.  The time field and the markers never interfere. *)
Theorem rendering_of_record_is_literal (r : EarthquakeRecord) (P T : string) :
  In P PREFECTURES ->
  (forall n, Quake.name r = Some n -> JS.StringToBoolean n = true ->
             Spec.inert n = true /\ Spec.literal n = true) ->
  (forall m, Quake.mag r = Some m -> JS.NumberToBoolean m = true ->
             Spec.literal (NumberToString m) = true
             /\ Spec.mem "{" (NumberToString m) = false) ->
  (forall i, Quake.maxInt r = Some i -> JS.StringToBoolean i = true ->
             Spec.inert i = true /\ Spec.literal i = true) ->
  fillTemplate T (formatFields r P) = Spec.render T (formatFields r P).
Proof.
  intros HP Hn Hm Hi. unfold Spec.render.
  destruct marker_plain as (U1 & U2 & M1 & M2).
  assert (E : Spec.inert (Data.epicenter (formatFields r P)) = true
              /\ Spec.literal (Data.epicenter (formatFields r P)) = true).
  { cbn [formatFields Data.epicenter].
    destruct (Quake.name r) as [n|]; [|now split].
    destruct (JS.StringToBoolean n) eqn:B; [now apply Hn | now split]. }
  assert (I : Spec.inert (Data.maxIntensity (formatFields r P)) = true
              /\ Spec.literal (Data.maxIntensity (formatFields r P)) = true).
  { cbn [formatFields Data.maxIntensity].
    destruct (Quake.maxInt r) as [i|]; [|now split].
    destruct (JS.StringToBoolean i) eqn:B; [now apply Hi | now split]. }
  assert (M : Spec.inert (Data.magnitude (formatFields r P)) = true
              /\ Spec.literal (Data.magnitude (formatFields r P)) = true).
  { cbn [formatFields Data.magnitude].
    destruct (Quake.mag r) as [m|]; [|now split].
    destruct (JS.NumberToBoolean m) eqn:B; [|now split].
    destruct (Hm m eq_refl B) as [L O]. unfold Spec.literal in *.
    change ("M" ++ NumberToString m) with (String "M" (NumberToString m)).
    cbn [Spec.inert]. rewrite !mem_cons, O.
    apply negb_true_iff in L. rewrite L. split; reflexivity. }
  apply chain_one_pass; try tauto;
    cbn [formatFields Data.time Data.prefecture];
    first [ apply formattedTime_plain | now apply PREFECTURES_literal ].
Qed.

(** X4.  Whatever the record holds, the formatter leaves no field empty:
    the time, the epicenter and the maximum intensity are never the empty
    string, and the magnitude always starts with the letter M. *)
Theorem formatFields_never_empty (r : EarthquakeRecord) (P : string) :
  Data.time (formatFields r P) <> ""
  /\ Data.epicenter (formatFields r P) <> ""
  /\ prefix "M" (Data.magnitude (formatFields r P)) = true
  /\ Data.maxIntensity (formatFields r P) <> "".
Proof.
  cbn [formatFields Data.time Data.epicenter Data.magnitude
       Data.maxIntensity].
  split; [|split; [|split]].
  - destruct (ToString_head (JS.getFullYear (newDate (Quake.time r))))
      as (c & rest & E & _).
    unfold formattedTime. rewrite E. discriminate.
  - destruct (Quake.name r) as [n|]; [|discriminate].
    destruct n; simpl; discriminate.
  - destruct (Quake.mag r) as [m|]; [|reflexivity].
    destruct (JS.NumberToBoolean m);
      [apply (prefix_append "M") | reflexivity].
  - destruct (Quake.maxInt r) as [i|]; [|discriminate].
    destruct i; simpl; discriminate.
Qed.

End FormattedFields.

Lemma rendering_of_record_is_literal_witness :
  fillTemplate defaultTemplate
    (@formatFields Sample.host Sample.quakeHokkaido "北海道")
  = Spec.render defaultTemplate
      (@formatFields Sample.host Sample.quakeHokkaido "北海道").
Proof.
  apply (@rendering_of_record_is_literal Sample.host).
  - simpl. tauto.
  - intros n [= <-] _. split; reflexivity.
  - intros m [= <-] _. split; reflexivity.
  - intros i [= <-] _. split; reflexivity.
Defined.

(* ================================================================== *)
(** ** Reading a formatted time back *)
(* ================================================================== *)

Lemma split_at (c : ascii) (a a' x x' : string) :
  Spec.mem c a = false -> Spec.mem c a' = false ->
  a ++ String c x = a' ++ String c x' -> a = a' /\ x = x'.
Proof.
  revert a'. induction a as [|e a IH]; intros a' Ha Ha' E.
  - destruct a' as [|d a']; simpl in E.
    + injection E as ->. now split.
    + injection E as -> _. now rewrite mem_cons, Ascii.eqb_refl in Ha'.
  - destruct a' as [|d a']; simpl in E.
    + injection E as -> _. now rewrite mem_cons, Ascii.eqb_refl in Ha.
    + injection E as -> E. rewrite mem_cons in Ha, Ha'.
      apply orb_false_elim in Ha as [_ Ha].
      apply orb_false_elim in Ha' as [_ Ha'].
      destruct (IH a' Ha Ha' E) as [-> ->]. now split.
Qed.

Lemma ToString_without (c : ascii) (n : JS.Num) :
  Spec.mem c "-0123456789Na" = false -> Spec.mem c (JS.ToString n) = false.
Proof.
  intros H. destruct (Spec.mem c (JS.ToString n)) eqn:M; [|reflexivity].
  apply ToString_chars in M. congruence.
Qed.

Lemma ToString_injective (y y' : Z) :
  JS.ToString (Some y) = JS.ToString (Some y') -> y = y'.
Proof.
  intros E. apply (f_equal Spec.parseDecimal) in E.
  rewrite !parseDecimal_ToString in E. now injection E.
Qed.

Lemma parseDecimal_twoDigits (n : Z) :
  (0 <= n < 100)%Z -> Spec.parseDecimal (Spec.twoDigits n) = Some n.
Proof.
  revert n. apply below_100. intros k Hk.
  do 100 (destruct k as [|k]; [reflexivity|]). lia.
Qed.

Lemma formattedTime_shape (d : JS.LocalTime) :
  getterRanges d ->
  formattedTime (Some d)
  = JS.ToString (Some (JS.FullYear d)) ++ "年"
    ++ JS.ToString (Some (JS.Month d + 1)%Z) ++ "月"
    ++ JS.ToString (Some (JS.DayOfMonth d)) ++ "日 "
    ++ JS.ToString (Some (JS.Hours d)) ++ ":"
    ++ Spec.twoDigits (JS.Minutes d).
Proof.
  intros (_ & _ & _ & Hmi). unfold formattedTime.
  cbn [JS.getFullYear JS.getMonth JS.getDate JS.getHours JS.getMinutes
       option_map JS.add].
  rewrite padStart_twoDigits by lia. reflexivity.
Qed.

(** X5.  The time field can be read back: two valid Dates that are
    formatted to the same text have the same year, month, day, hour and
    minute in local time.  (The separators keep the numbers apart, and the
    seconds are the only part of the time that is lost.) *)
Theorem formattedTime_injective (d d' : JS.LocalTime) :
  getterRanges d -> getterRanges d' ->
  formattedTime (Some d) = formattedTime (Some d') ->
  JS.FullYear d = JS.FullYear d' /\ JS.Month d = JS.Month d'
  /\ JS.DayOfMonth d = JS.DayOfMonth d' /\ JS.Hours d = JS.Hours d'
  /\ JS.Minutes d = JS.Minutes d'.
Proof.
  intros R R' E.
  rewrite (formattedTime_shape d R), (formattedTime_shape d' R') in E.
  destruct R as (Hm & Hd & Hh & Hmi), R' as (Hm' & Hd' & Hh' & Hmi').
  change ("年" ++ ?x) with (String "229" (String "185" (String "180" x))) in E.
  apply split_at in E as [EY E]; try (now apply (ToString_without _ (Some _))).
  injection E as E.
  change ("月" ++ ?x) with (String "230" (String "156" (String "136" x))) in E.
  apply split_at in E as [EM E]; try (now apply (ToString_without _ (Some _))).
  injection E as E.
  change ("日 " ++ ?x)
    with (String "230" (String "151" (String "165" (String " " x)))) in E.
  apply split_at in E as [ED E]; try (now apply (ToString_without _ (Some _))).
  injection E as E.
  change (":" ++ ?x) with (String ":" x) in E.
  apply split_at in E as [EH E]; try (now apply (ToString_without _ (Some _))).
  apply ToString_injective in EY, EM, ED, EH.
  apply (f_equal Spec.parseDecimal) in E.
  rewrite !parseDecimal_twoDigits in E by lia. injection E as E.
  repeat split; lia.
Qed.

Lemma formattedTime_injective_witness :
  formattedTime (Some (JS.mkLocalTime 1742016600000 2025 2 15 14 30))
  = formattedTime (Some (JS.mkLocalTime 1742016630000 2025 2 15 14 30))
  /\ (2025 = 2025 /\ 2 = 2 /\ 15 = 15 /\ 14 = 14 /\ 30 = 30)%Z.
Proof.
  split; [reflexivity|].
  apply (formattedTime_injective
           (JS.mkLocalTime 1742016600000 2025 2 15 14 30)
           (JS.mkLocalTime 1742016630000 2025 2 15 14 30));
    [unfold getterRanges; simpl; lia .. | reflexivity].
Defined.

(* ================================================================== *)
(** ** Earthquake selector: order, ties and the default selection *)
(* ================================================================== *)

Section SelectorOrder.
Context {host : Host}.

Lemma sort_of_sorted (l : list EarthquakeRecord) :
  StronglySorted Spec.notOlder l -> JS.sort byTimeDesc l = l.
Proof.
  induction 1 as [|x l Hs IH Hx]; [reflexivity|].
  cbn [JS.sort]. rewrite IH. destruct l as [|y l]; [reflexivity|].
  inversion Hx as [|? ? (tx & ty & Tx & Ty & Hle) _]; subst.
  cbn [JS.insert]. rewrite (SortCompare_byTimeDesc _ _ _ _ Tx Ty).
  destruct (ty - tx <=? 0)%Z eqn:C; [reflexivity|].
  apply Z.leb_gt in C. lia.
Qed.

Lemma filter_sorted (f : EarthquakeRecord -> bool)
  (l : list EarthquakeRecord) :
  StronglySorted Spec.notOlder l ->
  StronglySorted Spec.notOlder (List.filter f l).
Proof.
  induction 1 as [|x l Hs IH Hx]; simpl; [constructor|].
  destruct (f x); [|exact IH].
  constructor; [exact IH|].
  rewrite Forall_forall in Hx |- *. intros y Hy.
  apply Hx. now apply filter_In in Hy.
Qed.

Lemma filter_all (f : EarthquakeRecord -> bool) (l : list EarthquakeRecord) :
  (forall r, In r l -> f r = true) -> List.filter f l = l.
Proof.
  induction l as [|x l IH]; intros H; simpl; [reflexivity|].
  rewrite (H x) by now left. f_equal. apply IH. intros r Hr. apply H.
  now right.
Qed.

Lemma candidates_sorted (R : list EarthquakeRecord) (P : string) :
  Forall Spec.dated R ->
  StronglySorted Spec.notOlder
    (JS.sort byTimeDesc (List.filter (Spec.affects P) R)).
Proof.
  intros D. apply sort_sorted. rewrite Forall_forall in D |- *.
  intros r Hr. apply D. now apply filter_In in Hr.
Qed.

(** X6.  A feed that arrives newest first is only filtered: the records
    that name the prefecture come out in the order they came in. *)
Theorem sorted_feed_keeps_order (R : list EarthquakeRecord) (P : string) :
  StronglySorted Spec.notOlder R ->
  selectCandidates R P = JS.Ok (List.filter (Spec.affects P) R).
Proof.
  intros H. rewrite selectCandidates_value. f_equal.
  now apply sort_of_sorted, filter_sorted.
Qed.

(** X7.  Selecting is idempotent: the candidates of a candidate list, for
    the same prefecture, are that list. *)
Theorem selectCandidates_idempotent (R l : list EarthquakeRecord)
  (P : string) :
  Forall Spec.dated R ->
  selectCandidates R P = JS.Ok l -> selectCandidates l P = JS.Ok l.
Proof.
  intros D. rewrite !selectCandidates_value. intros [= <-]. f_equal.
  rewrite filter_all.
  - apply sort_of_sorted. now apply candidates_sorted.
  - intros r Hr. apply (Permutation_in _ (sort_Permutation _ _)) in Hr.
    now apply filter_In in Hr.
Qed.

(** X8.  The default selection is a newest match: it is a record of the
    feed that names the prefecture, and no record of the feed that names
    the prefecture is more recent. *)
Theorem default_selection_newest (R l : list EarthquakeRecord) (P : string)
  (r : EarthquakeRecord) :
  Forall Spec.dated R ->
  selectCandidates R P = JS.Ok l -> defaultSelection l = Some r ->
  In r R /\ Spec.affects P r = true
  /\ forall r', In r' R -> Spec.affects P r' = true -> Spec.notOlder r r'.
Proof.
  intros D. rewrite selectCandidates_value. intros [= <-] Hr.
  pose proof (candidates_sorted R P D) as Hs.
  pose proof (sort_Permutation byTimeDesc (List.filter (Spec.affects P) R))
    as Hp.
  destruct (JS.sort byTimeDesc (List.filter (Spec.affects P) R))
    as [|x l] eqn:E; [discriminate|].
  injection Hr as ->.
  assert (Hin : In r (List.filter (Spec.affects P) R))
    by (apply (Permutation_in _ Hp); now left).
  apply filter_In in Hin as [Hin Ha]. split; [exact Hin|]. split; [exact Ha|].
  intros r' Hr' Ha'.
  assert (Hl : In r' (r :: l)).
  { apply (Permutation_in _ (Permutation_sym Hp)). now apply filter_In. }
  inversion Hs as [|? ? _ Hall]; subst.
  destruct Hl as [<-|Hl].
  - rewrite Forall_forall in D.
    destruct (dated_timestamp r (D r Hin)) as [t Ht].
    exists t, t. repeat split; [assumption.. | lia].
  - rewrite Forall_forall in Hall. now apply Hall.
Qed.

Lemma atTime_insert (t : Z) (x : EarthquakeRecord)
  (l : list EarthquakeRecord) :
  Spec.dated x -> Forall Spec.dated l ->
  List.filter (atTime t) (JS.insert byTimeDesc x l)
  = List.filter (atTime t) (x :: l).
Proof.
  intros Dx Dl. induction Dl as [|y l Dy Dl IH]; [reflexivity|].
  destruct (dated_timestamp _ Dx) as [tx Tx].
  destruct (dated_timestamp _ Dy) as [ty Ty].
  cbn [JS.insert]. rewrite (SortCompare_byTimeDesc _ _ _ _ Tx Ty).
  destruct (ty - tx <=? 0)%Z eqn:C; [reflexivity|].
  apply Z.leb_gt in C. cbn [List.filter] in IH |- *. rewrite IH.
  unfold atTime. rewrite Tx, Ty.
  destruct (tx =? t)%Z eqn:Ex; destruct (ty =? t)%Z eqn:Ey; try reflexivity.
  apply Z.eqb_eq in Ex, Ey. lia.
Qed.

Lemma atTime_sort (t : Z) (l : list EarthquakeRecord) :
  Forall Spec.dated l ->
  List.filter (atTime t) (JS.sort byTimeDesc l) = List.filter (atTime t) l.
Proof.
  induction 1 as [|x l Dx Dl IH]; [reflexivity|].
  cbn [JS.sort]. rewrite atTime_insert.
  - cbn [List.filter]. now rewrite IH.
  - exact Dx.
  - now apply (Permutation_Forall (Permutation_sym (sort_Permutation _ l))).
Qed.

(** X9.  Ties keep the order of the feed: the candidates that share a
    timestamp are, in that order, the records of the feed that name the
    prefecture and have that timestamp. *)
Theorem ties_keep_feed_order (R l : list EarthquakeRecord) (P : string)
  (t : Z) :
  Forall Spec.dated R ->
  selectCandidates R P = JS.Ok l ->
  List.filter (atTime t) l
  = List.filter (atTime t) (List.filter (Spec.affects P) R).
Proof.
  intros D. rewrite selectCandidates_value. intros [= <-].
  apply atTime_sort. rewrite Forall_forall in D |- *.
  intros r Hr. apply D. now apply filter_In in Hr.
Qed.

End SelectorOrder.

Lemma sorted_feed_keeps_order_witness :
  StronglySorted (@Spec.notOlder Sample.host) MoreSamples.sortedFeed
  /\ @selectCandidates Sample.host MoreSamples.sortedFeed "北海道"
     = JS.Ok [Sample.quakeHokkaido; MoreSamples.quakeTwin; Sample.quakeOlder].
Proof.
  assert (H : StronglySorted (@Spec.notOlder Sample.host)
                MoreSamples.sortedFeed).
  { repeat match goal with
      | |- StronglySorted _ _ => constructor
      | |- Forall _ _ => constructor
      | |- @Spec.notOlder _ _ _ =>
          eexists; eexists;
          split; [reflexivity | split; [reflexivity | simpl; lia]]
      end. }
  split; [exact H|].
  exact (@sorted_feed_keeps_order Sample.host MoreSamples.sortedFeed
           "北海道" H).
Defined.

Lemma feed_dated : Forall (@Spec.dated Sample.host) MoreSamples.tiedFeed.
Proof. repeat constructor; discriminate. Qed.

Lemma selectCandidates_idempotent_witness :
  @selectCandidates Sample.host MoreSamples.tiedFeed "北海道"
  = JS.Ok [Sample.quakeHokkaido; MoreSamples.quakeTwin; Sample.quakeOlder]
  /\ @selectCandidates Sample.host
       [Sample.quakeHokkaido; MoreSamples.quakeTwin; Sample.quakeOlder]
       "北海道"
     = JS.Ok [Sample.quakeHokkaido; MoreSamples.quakeTwin; Sample.quakeOlder].
Proof.
  split; [reflexivity|].
  exact (@selectCandidates_idempotent Sample.host MoreSamples.tiedFeed _
           "北海道" feed_dated eq_refl).
Defined.

Lemma default_selection_newest_witness :
  @defaultSelection [Sample.quakeHokkaido; MoreSamples.quakeTwin;
                     Sample.quakeOlder] = Some Sample.quakeHokkaido
  /\ In Sample.quakeHokkaido MoreSamples.tiedFeed
  /\ Spec.affects "北海道" Sample.quakeHokkaido = true
  /\ forall r', In r' MoreSamples.tiedFeed ->
                Spec.affects "北海道" r' = true ->
                @Spec.notOlder Sample.host Sample.quakeHokkaido r'.
Proof.
  split; [reflexivity|].
  exact (@default_selection_newest Sample.host MoreSamples.tiedFeed _
           "北海道" Sample.quakeHokkaido feed_dated eq_refl eq_refl).
Defined.

Lemma ties_keep_feed_order_witness :
  List.filter (@atTime Sample.host 1741910700000)
    [Sample.quakeHokkaido; MoreSamples.quakeTwin; Sample.quakeOlder]
  = [MoreSamples.quakeTwin; Sample.quakeOlder].
Proof.
  refine (eq_trans
            (@ties_keep_feed_order Sample.host MoreSamples.tiedFeed _
               "北海道" 1741910700000 feed_dated eq_refl) _).
  reflexivity.
Defined.

(* ================================================================== *)
(** ** Application shell: what every run of the handlers keeps *)
(* ================================================================== *)

Lemma removeNth_length {A : Type} (i : nat) (l : list A) (x : A) :
  nth_error l i = Some x ->
  (List.length (removeNth i l) + 1 = List.length l)%nat.
Proof.
  revert i. induction l as [|y l IH]; intros [|i] H; try discriminate.
  - simpl. lia.
  - simpl in H |- *. rewrite <- (IH i H). lia.
Qed.

Lemma removeNth_Forall {A : Type} (Q : A -> Prop) (i : nat) (l : list A) :
  Forall Q l -> Forall Q (removeNth i l).
Proof.
  intros H. revert i. induction H as [|y l Hy Hl IH]; intros [|i]; simpl;
    try constructor; auto.
Qed.

Section ShellInvariants.
Context {host : Host}.

Lemma step_handle (e : Event) (st st' : AppState) :
  step e st = Some st' -> handle e st = Some st'.
Proof.
  destruct e as [p|i outcome|value|t]; cbn [step handle]; try tauto.
  - destruct (_ && _); [tauto | discriminate].
  - destruct (panelShown st); [tauto | discriminate].
Qed.

(** The panel is on the screen whenever [panelShown] says so.  (The two
    differ on an empty error message only, which is falsy for the page and
    an error for [panelShown]; the runs of [handle] cover both.) *)
Lemma panelShown_visible (st : AppState) :
  panelShown st = true -> panelVisible st = true.
Proof.
  unfold panelShown, panelVisible. destruct (loading st); [discriminate|].
  now destruct (error st).
Qed.

Lemma reachable_handled (st : AppState) : reachable st -> handled st.
Proof.
  induction 1 as [|e st st' _ IH Hstep]; [apply handled_mounted|].
  apply (handled_step e st); [exact IH | now apply step_handle].
Qed.

(** The cases of one handled event. *)
Lemma handle_cases (e : Event) (st st' : AppState) :
  handle e st = Some st' ->
  (exists p, e = ChangePref p /\ JS.includes PREFECTURES p = true
             /\ st' = runFillEffect (startFetch (setSelectedPref p st)))
  \/ (exists i outcome pref,
        e = Settle i outcome /\ nth_error (inflight st) i = Some pref
        /\ st' = runFillEffect
                   (finishFetch pref outcome
                      (setInflight (removeNth i (inflight st)) st)))
  \/ (exists value, e = SelectEq value
                    /\ st' = runFillEffect (onSelectEq value st))
  \/ (exists t, e = EditTemplate t
                /\ st' = runFillEffect (setTemplate t st)).
Proof.
  destruct e as [p|i outcome|value|t]; cbn [handle step]; intros H.
  - left. destruct (JS.includes PREFECTURES p) eqn:I; [|discriminate].
    destruct (negb _); [|discriminate]. injection H as <-. eauto.
  - right; left. destruct (nth_error _ _) as [pref|] eqn:N; [|discriminate].
    injection H as <-. eauto 6.
  - right; right; left. injection H as <-. eauto.
  - right; right; right. injection H as <-. eauto.
Qed.

Lemma finishFetch_frame (pref : string) (outcome : FetchOutcome)
  (st : AppState) :
  selectedPref (finishFetch pref outcome st) = selectedPref st
  /\ template (finishFetch pref outcome st) = template st
  /\ inflight (finishFetch pref outcome st) = inflight st
  /\ loading (finishFetch pref outcome st) = false.
Proof. unfold finishFetch. now destruct (tryBlock pref outcome). Qed.

Lemma handled_in_sync (st : AppState) :
  handled st ->
  filled st = snd (fillEffect (selectedEq st) (template st) (selectedPref st)).
Proof.
  intros [|e st0 st' _ H]; [reflexivity|].
  destruct (handle_cases e st0 st' H)
    as [(p & _ & _ & ->)|[(i & o & q & _ & _ & ->)|[(v & _ & ->)|(t & _ & ->)]]];
    reflexivity.
Qed.

Lemma handled_selection_listed (st : AppState) :
  handled st -> forall r, selectedEq st = Some r -> In r (earthquakes st).
Proof.
  induction 1 as [|e st st' _ IH H]; [discriminate|].
  destruct (handle_cases e st st' H)
    as [(p & _ & _ & ->)|[(i & o & q & _ & _ & ->)|[(v & _ & ->)|(t & _ & ->)]]];
    cbn; try exact IH.
  - unfold finishFetch. destruct (tryBlock q o) as [filtered|m]; cbn.
    + intros r. apply defaultSelection_In.
    + exact IH.
  - intros r Hr. now apply List.find_some in Hr.
Qed.


(** X11.  The selected prefecture is always one of the 47 of the list, and
    so is the prefecture of every fetch on its way. *)
Theorem prefecture_always_listed (st : AppState) :
  handled st ->
  In (selectedPref st) PREFECTURES
  /\ Forall (fun p => In p PREFECTURES) (inflight st).
Proof.
  induction 1 as [|e st st' _ [IH1 IH2] H].
  - split; [now left | repeat constructor].
  - destruct (handle_cases e st st' H)
      as [(p & _ & I & ->)|[(i & o & q & _ & _ & ->)
                           |[(v & _ & ->)|(t & _ & ->)]]];
      cbn; try (split; assumption).
    + apply includes_In in I. split; [exact I|].
      apply Forall_app. split; [exact IH2 | now constructor].
    + destruct (finishFetch_frame q o
                  (setInflight (removeNth i (inflight st)) st))
        as (-> & _ & -> & _).
      cbn. split; [exact IH1 | now apply removeNth_Forall].
Qed.

(** X12.  The loading notice and the error notice are never on the screen
    together: while [loading] is set no error is stored, and a fetch is on
    its way. *)
Theorem loading_excludes_error (st : AppState) :
  handled st -> loadingShown st = true ->
  error st = None /\ errorShown st = None /\ inflight st <> []
  /\ panelVisible st = false.
Proof.
  unfold loadingShown, errorShown, panelVisible.
  intros H L.
  assert (A : error st = None /\ inflight st <> []).
  { revert L. induction H as [|e st st' _ IH H]; intros L.
    - split; [reflexivity | discriminate].
    - destruct (handle_cases e st st' H)
        as [(p & _ & _ & ->)|[(i & o & q & _ & _ & ->)
                             |[(v & _ & ->)|(t & _ & ->)]]];
        cbn in L |- *; try (now apply IH).
      + split; [reflexivity|]. now destruct (inflight st).
      + destruct (finishFetch_frame q o
                    (setInflight (removeNth i (inflight st)) st))
          as (_ & _ & _ & F).
        rewrite F in L. discriminate. }
  destruct A as [E I]. rewrite E, L. repeat split; assumption.
Qed.

(** X13.  When the stored list is empty nothing is selected, the screen
    shows the fixed text, and the earthquake picker is disabled with an
    empty value. *)
Theorem empty_list_state (st : AppState) :
  handled st -> earthquakes st = [] ->
  selectedEq st = None /\ resultShown st = noMatch
  /\ pickerDisabled st = true /\ pickerValue st = "".
Proof.
  intros H E.
  assert (N : selectedEq st = None).
  { destruct (selectedEq st) as [r|] eqn:S; [|reflexivity].
    apply (handled_selection_listed st H) in S. now rewrite E in S. }
  unfold resultShown, pickerDisabled, pickerValue.
  rewrite (handled_in_sync st H), N, E. repeat split.
Qed.

(** X14.  The value the earthquake picker is given is one of its options:
    when a record with a non-empty id is selected, the picker is enabled
    and its value is the id of a listed record. *)
Theorem picker_value_is_an_option (st : AppState) (r : EarthquakeRecord) :
  handled st -> selectedEq st = Some r -> Quake.id r <> "" ->
  pickerValue st = Quake.id r
  /\ In (pickerValue st) (optionValues st)
  /\ pickerDisabled st = false.
Proof.
  intros H S ne. pose proof (handled_selection_listed st H r S) as Hin.
  unfold pickerValue, optionValues, pickerDisabled. rewrite S.
  assert (T : JS.StringToBoolean (Quake.id r) = true)
    by (destruct (Quake.id r); [congruence | reflexivity]).
  rewrite T. destruct (earthquakes st) as [|x l] eqn:E; [destruct Hin|].
  cbn [List.length Nat.eqb]. repeat split. now apply in_map.
Qed.

End ShellInvariants.

Section ShellEvents.
Context {host : Host}.

Lemma find_by_unique_id (l : list EarthquakeRecord) (r : EarthquakeRecord) :
  NoDup (map Quake.id l) -> In r l ->
  JS.find (fun eq => String.eqb (Quake.id eq) (Quake.id r)) l = Some r.
Proof.
  unfold JS.find. induction l as [|x l IH]; intros N Hin; [destruct Hin|].
  inversion N as [|? ? Hx Nl]; subst. cbn [List.find].
  destruct Hin as [->|Hin]; [now rewrite String.eqb_refl|].
  destruct (String.eqb (Quake.id x) (Quake.id r)) eqn:E; [|now apply IH].
  apply String.eqb_eq in E. exfalso. apply Hx. rewrite E. now apply in_map.
Qed.

(** X15.  Picking a listed earthquake selects it: when the ids of the list
    are distinct, the handler given the id of a listed record selects that
    very record and shows the template filled from it; and the event is one
    the page can raise whenever the panel is on the screen. *)
Theorem picking_selects_the_record (st : AppState) (r : EarthquakeRecord) :
  In r (earthquakes st) -> NoDup (map Quake.id (earthquakes st)) ->
  exists st',
    handle (SelectEq (Quake.id r)) st = Some st'
    /\ selectedEq st' = Some r
    /\ resultShown st'
       = fillTemplate (template st) (formatFields r (selectedPref st))
    /\ earthquakes st' = earthquakes st
    /\ (panelShown st = true -> step (SelectEq (Quake.id r)) st = Some st').
Proof.
  intros Hin N. eexists. split; [reflexivity|].
  cbn. rewrite (find_by_unique_id _ r N Hin). cbn.
  repeat split. intros ->.
  destruct (earthquakes st); [destruct Hin | reflexivity].
Qed.

Lemma handle_inflight (e : Event) (st st' : AppState) :
  handle e st = Some st' ->
  (List.length (inflight st') + (if isSettle e then 1 else 0)
   = List.length (inflight st) + (if isChangePref e then 1 else 0))%nat.
Proof.
  intros H.
  destruct (handle_cases e st st' H)
    as [(p & -> & _ & ->)|[(i & o & q & -> & Hn & ->)
                          |[(v & -> & ->)|(t & -> & ->)]]];
    cbn; try lia.
  - rewrite length_app. simpl. lia.
  - destruct (finishFetch_frame q o
                (setInflight (removeNth i (inflight st)) st))
      as (_ & _ & -> & _).
    cbn. rewrite (removeNth_length i _ q Hn). lia.
Qed.

Lemma run_inflight (es : list Event) (st st' : AppState) :
  run es st = Some st' ->
  (List.length (inflight st') + List.length (List.filter isSettle es)
   = List.length (inflight st)
     + List.length (List.filter isChangePref es))%nat.
Proof.
  revert st. induction es as [|e es IH]; intros st H.
  - injection H as <-. simpl. lia.
  - cbn [run] in H. destruct (step e st) as [st1|] eqn:E; [|discriminate].
    pose proof (handle_inflight e st st1 (step_handle _ _ _ E)) as A.
    specialize (IH st1 H). cbn [List.filter].
    destruct (isSettle e), (isChangePref e); simpl in *; lia.
Qed.

(** X16.  Fetches are started by mounting and by prefecture changes only,
    one each, and every settling ends one: after any run the number of
    fetches on their way plus the number that settled is one more than the
    number of prefecture changes. *)
Theorem fetches_accounted_for (es : list Event) (st : AppState) :
  run es mounted = Some st ->
  (List.length (inflight st) + List.length (List.filter isSettle es)
   = 1 + List.length (List.filter isChangePref es))%nat.
Proof. intros H. now rewrite (run_inflight es mounted st H). Qed.

Lemma in_turn_loading (st : AppState) :
  reachableInTurn st ->
  (inflight st = [] /\ loading st = false)
  \/ (inflight st = [selectedPref st] /\ loading st = true).
Proof.
  induction 1 as [|e st st' _ IH Hturn Hstep]; [now right|].
  destruct (handle_cases e st st' (step_handle _ _ _ Hstep))
    as [(p & -> & _ & ->)|[(i & o & q & -> & Hn & ->)
                          |[(v & -> & ->)|(t & -> & ->)]]];
    cbn; try exact IH.
  - right. now rewrite (Hturn p eq_refl).
  - left. destruct (finishFetch_frame q o
                      (setInflight (removeNth i (inflight st)) st))
      as (_ & _ & -> & ->).
    cbn. split; [|reflexivity].
    destruct IH as [[E _]|[E _]]; rewrite E in Hn |- *.
    + destruct i; discriminate.
    + destruct i as [|i]; [reflexivity | destruct i; discriminate].
Qed.

(** X17.  When the user lets each fetch settle before changing the
    prefecture again, the loading notice is on the screen exactly while a
    fetch is on its way, and that fetch is the one for the selected
    prefecture. *)
Theorem loading_while_fetching (st : AppState) :
  reachableInTurn st ->
  (loadingShown st = true <-> inflight st <> [])
  /\ (inflight st = [] \/ inflight st = [selectedPref st]).
Proof.
  intros H. unfold loadingShown.
  destruct (in_turn_loading st H) as [[E L]|[E L]]; rewrite E, L.
  - split; [split; [discriminate | congruence] | now left].
  - split; [split; [discriminate | reflexivity] | now right].
Qed.





End ShellEvents.

(* ------------------------------------------------------------------ *)
(** *** The properties of the shell on the sample runs *)

Lemma after_handled (es : list Event) : @handled Sample.host (Sample.after es).
Proof. apply reachable_handled, after_reachable. Qed.

Ltac by_vm := vm_compute; reflexivity.


Lemma prefecture_always_listed_witness :
  @handled Sample.host Sample.outOfOrder
  /\ In (selectedPref Sample.outOfOrder) PREFECTURES
  /\ Forall (fun p => In p PREFECTURES) (inflight Sample.outOfOrder).
Proof.
  split; [exact (after_handled _)|].
  exact (@prefecture_always_listed Sample.host Sample.outOfOrder
           (after_handled _)).
Defined.

Lemma loading_excludes_error_witness :
  @handled Sample.host Sample.okinawaLoading
  /\ loadingShown Sample.okinawaLoading = true
  /\ error Sample.okinawaLoading = None
  /\ errorShown Sample.okinawaLoading = None
  /\ inflight Sample.okinawaLoading <> []
  /\ panelVisible Sample.okinawaLoading = false.
Proof.
  assert (L : loadingShown Sample.okinawaLoading = true) by by_vm.
  split; [exact (after_handled _)|]. split; [exact L|].
  exact (@loading_excludes_error Sample.host Sample.okinawaLoading
           (after_handled _) L).
Defined.

Lemma empty_list_state_witness :
  @handled Sample.host Sample.okinawaEmpty
  /\ earthquakes Sample.okinawaEmpty = []
  /\ selectedEq Sample.okinawaEmpty = None
  /\ resultShown Sample.okinawaEmpty = noMatch
  /\ pickerDisabled Sample.okinawaEmpty = true
  /\ pickerValue Sample.okinawaEmpty = "".
Proof.
  assert (E : earthquakes Sample.okinawaEmpty = []) by by_vm.
  split; [exact (after_handled _)|]. split; [exact E|].
  exact (@empty_list_state Sample.host Sample.okinawaEmpty
           (after_handled _) E).
Defined.

Lemma picker_value_is_an_option_witness :
  @handled Sample.host Sample.okinawaLoaded
  /\ selectedEq Sample.okinawaLoaded = Some Sample.quakeOkinawa
  /\ pickerValue Sample.okinawaLoaded = Quake.id Sample.quakeOkinawa
  /\ In (pickerValue Sample.okinawaLoaded) (optionValues Sample.okinawaLoaded)
  /\ pickerDisabled Sample.okinawaLoaded = false.
Proof.
  assert (S : selectedEq Sample.okinawaLoaded = Some Sample.quakeOkinawa)
    by by_vm.
  split; [exact (after_handled _)|]. split; [exact S|].
  apply (@picker_value_is_an_option Sample.host Sample.okinawaLoaded
           Sample.quakeOkinawa (after_handled _) S).
  discriminate.
Defined.

Lemma picking_selects_the_record_witness :
  earthquakes (Sample.after [Settle 0 (Response true (JS.Ok Sample.feed))])
  = [Sample.quakeHokkaido; Sample.quakeOlder]
  /\ exists st',
       @handle Sample.host (SelectEq (Quake.id Sample.quakeOlder))
         (Sample.after [Settle 0 (Response true (JS.Ok Sample.feed))])
       = Some st'
       /\ selectedEq st' = Some Sample.quakeOlder.
Proof.
  assert (E : earthquakes
                (Sample.after [Settle 0 (Response true (JS.Ok Sample.feed))])
              = [Sample.quakeHokkaido; Sample.quakeOlder]) by by_vm.
  split; [exact E|].
  destruct (@picking_selects_the_record Sample.host
              (Sample.after [Settle 0 (Response true (JS.Ok Sample.feed))])
              Sample.quakeOlder) as (st' & H & S & _).
  - rewrite E. simpl. tauto.
  - rewrite E. repeat constructor; simpl; intuition discriminate.
  - exists st'. split; [exact H | exact S].
Defined.

Lemma fetches_accounted_for_witness :
  @run Sample.host
    [ ChangePref "沖縄";
      Settle 1 (Response true (JS.Ok Sample.feed));
      Settle 0 (Response true (JS.Ok Sample.feed)) ]
    (@mounted Sample.host) = Some Sample.outOfOrder
  /\ (List.length (inflight Sample.outOfOrder) + 2 = 1 + 1)%nat.
Proof.
  assert (R : @run Sample.host
                [ ChangePref "沖縄";
                  Settle 1 (Response true (JS.Ok Sample.feed));
                  Settle 0 (Response true (JS.Ok Sample.feed)) ]
                (@mounted Sample.host) = Some Sample.outOfOrder) by by_vm.
  split; [exact R|].
  exact (@fetches_accounted_for Sample.host _ Sample.outOfOrder R).
Defined.

Lemma loading_while_fetching_witness :
  @reachableInTurn Sample.host Sample.okinawaLoaded
  /\ (loadingShown Sample.okinawaLoaded = true
      <-> inflight Sample.okinawaLoaded <> [])
  /\ (inflight Sample.okinawaLoaded = []
      \/ inflight Sample.okinawaLoaded
         = [selectedPref Sample.okinawaLoaded]).
Proof.
  split; [exact okinawaLoaded_in_turn|].
  exact (@loading_while_fetching Sample.host Sample.okinawaLoaded
           okinawaLoaded_in_turn).
Defined.


